(** * ts_scriptqueue: the queue engine and the child-side script runtime

    A shallow embedding of [python/lsst/ts/scriptqueue/queue_model.py]
    (class [QueueModel]) and of the checkpoint and command-line parts of
    [python/lsst/ts/scriptqueue/base_script.py] (class [BaseScript]),
    with the properties of the specification stated over them.

    Conventions.
    - SAL indices and sequence numbers are Python [int]s: [Z].
    - A [collections.deque] is a [list] whose head is the left end;
      [appendleft] conses, [popleft] drops the head.
    - A method that can raise returns a [result]: either [Ok] with the
      returned value, or [Raise] with the error; both carry the state of
      the model at that point, because a Python exception leaves every
      mutation made before it in place.
    - Things the scheduler does to the outside (commands sent, tasks
      created, callbacks called) are appended to a [trace]. *)

From Stdlib Require Import ZArith Lia Ascii String.
From stdpp Require Import base option list strings gmap.

Local Open Scope string_scope.
Local Open Scope list_scope.

(** ** ScriptInfo *)

Module ScriptInfo.

(** Modelled from the spec: [script_info.py] (class [ScriptInfo]) is
    imported by [queue_model.py] but is not among the sources.  The
    record holds the fields of section 3 of the specification that
    [QueueModel] reads or copies.  [configured], [process_done],
    [failed] and [terminated] are observations of the child process and
    are kept as they were last reported; [runnable] and
    [needs_group_id] are the derived predicates of section 3. *)
Record t : Type := mk {
  index : Z;
  seq_num : Z;
  is_standard : bool;
  path : string;
  config : string;
  descr : string;
  configured : bool;
  process_done : bool;
  failed : bool;
  terminated : bool;
  group_id : string;
  setting_group_id : bool
}.

#[global] Instance eq_dec : EqDecision t.
Proof. solve_decision. Defined.

(** Python truthiness of a [str]: non-empty. *)
Definition truthy (s : string) : bool :=
  match s with
  | EmptyString => false
  | String _ _ => true
  end.

(** Modelled from the spec: [runnable] is
    configured, with a group id, and the process alive. *)
Definition runnable (s : t) : bool :=
  configured s && truthy (group_id s) && negb (process_done s).

(** Modelled from the spec: [needs_group_id] is
    configured, without a group id, and none being set. *)
Definition needs_group_id (s : t) : bool :=
  configured s && negb (truthy (group_id s)) && negb (setting_group_id s).

(** Modelled from the spec: clearing the group id is an unconditional
    local update; the pre-stage (set or in flight) is cancelled.  The
    optional [setGroupId] command to the child is an effect that the
    caller records in its trace. *)
Definition clear_group_id (s : t) : t :=
  mk (index s) (seq_num s) (is_standard s) (path s) (config s) (descr s)
     (configured s) (process_done s) (failed s) (terminated s)
     "" false.

(** Modelled from the spec: [run] dispatches the [run] command to the
    child; the record itself changes only when the child reports back. *)
Definition run (s : t) : t := s.

(** The constructor call made by [QueueModel.requeue]; a new script has
    reported nothing yet. *)
Definition new (index seq_num : Z) (is_standard : bool)
    (path config descr : string) : t :=
  mk index seq_num is_standard path config descr
     false false false false "" false.

Lemma index_clear_group_id s : index (clear_group_id s) = index s.
Proof. reflexivity. Qed.

Lemma index_run s : index (run s) = index s.
Proof. reflexivity. Qed.

End ScriptInfo.

(** ** Location *)

(** [lsst.ts.idl.enums.ScriptQueue.Location].  A command can carry any
    integer in its location field; [OTHER v] stands for a value that is
    none of the four enum members. *)
Inductive Location : Type :=
  | FIRST
  | LAST
  | BEFORE
  | AFTER
  | OTHER (v : Z).

Definition is_relative (l : Location) : bool :=
  match l with
  | BEFORE | AFTER => true
  | _ => false
  end.

(** ** Errors and effects *)

(** Every error below is a Python [ValueError]; the constructors tell
    the raise sites apart. *)
Inductive Error : Type :=
  | NotUnderRoot      (* "path ... is not relative to ..." *)
  | NotFound          (* "Cannot find script ..." *)
  | HiddenOrPrivate   (* "script ... is invisible or private" *)
  | NotExecutable     (* "Script ... is not executable." *)
  | NotQueued         (* deque.index(key) found nothing *)
  | UnknownLocation   (* "Unknown location ..." *)
  | LoadTimeout.      (* asyncio.wait_for(coro, _LOAD_TIMEOUT) *)

Inductive Event : Type :=
  | RunCommand (i : Z)
  | SetGroupIdTask (i : Z)
  | NextVisitCanceled (i : Z)
  | ClearGroupIdCommand (i : Z)
  | StartLoading (i : Z)
  | RemoveScriptTask (i : Z)
  | ScriptCallback (i : Z)
  | QueueCallback.

(** ** Paths and the file system *)

Module Paths.

(** [str.split("/")]. *)
Fixpoint split_slash (s : string) : list string :=
  match s with
  | EmptyString => [EmptyString]
  | String c s' =>
      if Ascii.eqb c "/"%char then EmptyString :: split_slash s'
      else match split_slash s' with
           | h :: t => String c h :: t
           | [] => [String c EmptyString]
           end
  end.

(** The parts of a [pathlib.PurePosixPath] after the root: empty
    components and ["."] are dropped, [".."] is kept. *)
Definition parts (s : string) : list string :=
  filter (fun c => c <> "" /\ c <> ".") (split_slash s).

Definition is_absolute (s : string) : bool :=
  match s with
  | String c _ => Ascii.eqb c "/"%char
  | EmptyString => false
  end.

(** [root.joinpath(path)] for an absolute [root], as the list of parts
    below ["/"]: an absolute [path] replaces [root].  (The special root
    ["//"] of POSIX paths is not told apart from ["/"].) *)
Definition joinpath (root : list string) (p : string) : list string :=
  if is_absolute p then parts p else root ++ parts p.

(** [root in fullpath.parents]: the parents of a pure path are its
    proper prefixes, compared part by part. *)
Definition in_parents (root full : list string) : bool :=
  bool_decide (take (length root) full = root) &&
  bool_decide (length root < length full).

(** [fullpath.name]: the last part. *)
Definition name (full : list string) : string := List.last full "".

(** [name[0] in (".", "_")]. *)
Definition hidden_or_private (n : string) : bool :=
  match n with
  | String c _ => Ascii.eqb c "."%char || Ascii.eqb c "_"%char
  | EmptyString => false
  end.

(** [os.path.normpath] on the parts of an absolute path: [".."] removes
    the part before it, and stays at ["/"] when there is none. *)
Definition canonical (full : list string) : list string :=
  foldl (fun acc c => if bool_decide (c = "..") then removelast acc
                      else acc ++ [c]) [] full.

Inductive Node : Type :=
  | Dir
  | File (executable : bool).

(** A file system without symbolic links: what is at each canonical
    absolute path. *)
Definition FileSystem : Type := list string -> option Node.

(** Path resolution by the operating system: every part is looked up in
    the directory reached so far. *)
Fixpoint walk (fs : FileSystem) (cur rest : list string)
    : option (list string) :=
  match rest with
  | [] => Some cur
  | c :: rest' =>
      match fs cur with
      | Some Dir =>
          walk fs (if bool_decide (c = "..") then removelast cur
                   else cur ++ [c]) rest'
      | _ => None
      end
  end.

Definition stat (fs : FileSystem) (full : list string) : option Node :=
  match walk fs [] full with
  | Some p => fs p
  | None => None
  end.

(** [fullpath.is_file()]. *)
Definition is_file (fs : FileSystem) (full : list string) : bool :=
  match stat fs full with
  | Some (File _) => true
  | _ => false
  end.

(** [os.access(fullpath, os.X_OK)]. *)
Definition access_x (fs : FileSystem) (full : list string) : bool :=
  match stat fs full with
  | Some (File x) => x
  | Some Dir => true
  | None => false
  end.

End Paths.

(** ** QueueModel *)

Module QueueModel.

Abbreviation SI := ScriptInfo.t.

Definition MIN_SAL_INDEX : Z := 1000.
Definition MAX_HISTORY : nat := 400.

(** [salobj.MAX_SAL_INDEX], the default upper end of the index range. *)
Definition MAX_SAL_INDEX : Z := 2147483647.

(** The attributes set by [QueueModel.__init__].  [standardpath] and
    [externalpath] are the parts of the two absolute root directories;
    the three callback fields say whether a callable was given;
    [_index_generator] is the counter inside the generator object. *)
Record t : Type := mk {
  standardpath : list string;
  externalpath : list string;
  next_visit_canceled_callback : bool;
  queue_callback : bool;
  script_callback : bool;
  min_sal_index : Z;
  max_sal_index : Z;
  queue : list SI;
  history : list SI;
  current_script : option SI;
  _running : bool;
  _enabled : bool;
  _index_generator : Z;
  _scripts_being_stopped : gset Z;
  trace : list Event
}.

Definition set_queue (q : list SI) (m : t) : t :=
  mk (standardpath m) (externalpath m) (next_visit_canceled_callback m)
     (queue_callback m) (script_callback m) (min_sal_index m)
     (max_sal_index m) q (history m) (current_script m) (_running m)
     (_enabled m) (_index_generator m) (_scripts_being_stopped m) (trace m).

Definition set_history (h : list SI) (m : t) : t :=
  mk (standardpath m) (externalpath m) (next_visit_canceled_callback m)
     (queue_callback m) (script_callback m) (min_sal_index m)
     (max_sal_index m) (queue m) h (current_script m) (_running m)
     (_enabled m) (_index_generator m) (_scripts_being_stopped m) (trace m).

Definition set_current_script (c : option SI) (m : t) : t :=
  mk (standardpath m) (externalpath m) (next_visit_canceled_callback m)
     (queue_callback m) (script_callback m) (min_sal_index m)
     (max_sal_index m) (queue m) (history m) c (_running m)
     (_enabled m) (_index_generator m) (_scripts_being_stopped m) (trace m).

Definition set__running (b : bool) (m : t) : t :=
  mk (standardpath m) (externalpath m) (next_visit_canceled_callback m)
     (queue_callback m) (script_callback m) (min_sal_index m)
     (max_sal_index m) (queue m) (history m) (current_script m) b
     (_enabled m) (_index_generator m) (_scripts_being_stopped m) (trace m).

Definition set__enabled (b : bool) (m : t) : t :=
  mk (standardpath m) (externalpath m) (next_visit_canceled_callback m)
     (queue_callback m) (script_callback m) (min_sal_index m)
     (max_sal_index m) (queue m) (history m) (current_script m) (_running m)
     b (_index_generator m) (_scripts_being_stopped m) (trace m).

Definition set__index_generator (g : Z) (m : t) : t :=
  mk (standardpath m) (externalpath m) (next_visit_canceled_callback m)
     (queue_callback m) (script_callback m) (min_sal_index m)
     (max_sal_index m) (queue m) (history m) (current_script m) (_running m)
     (_enabled m) g (_scripts_being_stopped m) (trace m).

Definition set__scripts_being_stopped (s : gset Z) (m : t) : t :=
  mk (standardpath m) (externalpath m) (next_visit_canceled_callback m)
     (queue_callback m) (script_callback m) (min_sal_index m)
     (max_sal_index m) (queue m) (history m) (current_script m) (_running m)
     (_enabled m) (_index_generator m) s (trace m).

Definition emit (evs : list Event) (m : t) : t :=
  mk (standardpath m) (externalpath m) (next_visit_canceled_callback m)
     (queue_callback m) (script_callback m) (min_sal_index m)
     (max_sal_index m) (queue m) (history m) (current_script m) (_running m)
     (_enabled m) (_index_generator m) (_scripts_being_stopped m)
     (trace m ++ evs).

(** [QueueModel.__init__]: empty containers, [_running = True],
    [_enabled = False], and a generator that has produced nothing. *)
Definition init (standardpath externalpath : list string)
    (next_visit_canceled_callback queue_callback script_callback : bool)
    (min_sal_index max_sal_index : Z) : t :=
  mk standardpath externalpath next_visit_canceled_callback queue_callback
     script_callback min_sal_index max_sal_index
     [] [] None true false (min_sal_index - 1) ∅ [].

(** *** Methods that can raise *)

Inductive result (A : Type) : Type :=
  | Ok (a : A) (m : t)
  | Raise (e : Error) (m : t).
Arguments Ok {A} a m.
Arguments Raise {A} e m.

Definition M (A : Type) : Type := t -> result A.

#[export] Instance M_ret : MRet M := fun A a m => Ok a m.
#[export] Instance M_bind : MBind M := fun A B f c m =>
  match c m with
  | Ok a m' => f a m'
  | Raise e m' => Raise e m'
  end.

Definition raise {A : Type} (e : Error) : M A := fun m => Raise e m.
Definition get : M t := fun m => Ok m m.
Definition modify (f : t -> t) : M unit := fun m => Ok tt (f m).

(** [try: body except Exception: handler; raise]. *)
Definition try_except_reraise {A : Type} (body : M A) (handler : t -> t)
    : M A := fun m =>
  match body m with
  | Ok a m' => Ok a m'
  | Raise e m' => Raise e (handler m')
  end.

Definition state_of {A : Type} (r : result A) : t :=
  match r with
  | Ok _ m => m
  | Raise _ m => m
  end.

(** *** Properties of the model *)

Definition indices (l : list SI) : list Z := ScriptInfo.index <$> l.

(** [current_index]: 0 when there is no current script. *)
Definition current_index (m : t) : Z :=
  match current_script m with
  | None => 0
  | Some s => ScriptInfo.index s
  end.

Definition history_indices (m : t) : list Z := indices (history m).
Definition queue_indices (m : t) : list Z := indices (queue m).

Definition running (m : t) : bool := _running m.
Definition enabled (m : t) : bool := _enabled m.

(** [deque.appendleft] on a deque made with [maxlen=MAX_HISTORY]: when
    the deque is full the item at the other end is discarded. *)
Definition history_appendleft (s : SI) (h : list SI) : list SI :=
  take MAX_HISTORY (s :: h).

(** *** _update_queue *)

(** The first block: a current script whose process is done either
    stays and pauses the queue, or goes to the history.  A [ScriptInfo]
    object is truthy, so [if self.current_script] tests for [None]. *)
Definition reap_current (pause_on_failure : bool) (m : t) : t :=
  match current_script m with
  | Some s =>
      if ScriptInfo.process_done s then
        if ScriptInfo.failed s && (pause_on_failure || negb (running m))
        then set__running false m
        else set_current_script None
               (set_history (history_appendleft s (history m)) m)
      else m
  | None => m
  end.

(** The [while self.queue] loop; [q] is [self.queue] on entry of each
    iteration. *)
Fixpoint skim_and_promote (q : list SI) (m : t) : t :=
  match q with
  | [] => m
  | script_info :: q' =>
      if ScriptInfo.process_done script_info
         || ScriptInfo.terminated script_info
      then skim_and_promote q'
             (set_queue q'
                (set_history (history_appendleft script_info (history m)) m))
      else if negb (bool_decide (is_Some (current_script m)))
              && ScriptInfo.runnable script_info
              && negb (bool_decide (ScriptInfo.index script_info
                                      ∈ _scripts_being_stopped m))
      then emit [RunCommand (ScriptInfo.index script_info)]
             (set_queue q'
                (set_current_script (Some (ScriptInfo.run script_info)) m))
      else m
  end.

(** [QueueModel.clear_group_id]: the canceled-visit callback, when there
    is one, then [script_info.clear_group_id(command_script)]. *)
Definition clear_group_id (m : t) (script_info : SI) (command_script : bool)
    : SI * list Event :=
  (ScriptInfo.clear_group_id script_info,
   (if next_visit_canceled_callback m
    then [NextVisitCanceled (ScriptInfo.index script_info)] else [])
   ++ (if command_script
       then [ClearGroupIdCommand (ScriptInfo.index script_info)] else [])).

(** The body of the [for] loop for a script that is not at the top. *)
Definition unstage (m : t) (script_info : SI) : SI * list Event :=
  if ScriptInfo.truthy (ScriptInfo.group_id script_info)
     || ScriptInfo.setting_group_id script_info
  then clear_group_id m script_info true
  else (script_info, []).

(** The [for script_info in self.queue] loop. *)
Definition stage (m : t) : t :=
  match queue m with
  | [] => m
  | top :: rest =>
      let rs := unstage m <$> rest in
      emit ((if ScriptInfo.needs_group_id top
             then [SetGroupIdTask (ScriptInfo.index top)] else [])
            ++ concat (snd <$> rs))
        (set_queue (top :: (fst <$> rs)) m)
  end.

Definition _update_queue (force_callback pause_on_failure : bool) (m : t)
    : t :=
  let initial_current_index := current_index m in
  let initial_queue_indices := queue_indices m in
  let initial_history_indices := history_indices m in
  let m1 := reap_current pause_on_failure m in
  let m2 := if enabled m1 && running m1
            then stage (skim_and_promote (queue m1) m1)
            else m1 in
  if queue_callback m2 && force_callback
     || bool_decide (current_index m2 <> initial_current_index)
     || bool_decide (queue_indices m2 <> initial_queue_indices)
     || bool_decide (history_indices m2 <> initial_history_indices)
  then (if queue_callback m2 then emit [QueueCallback] m2 else m2)
  else m2.

(** The [enabled] and [running] setters. *)
Definition enabled_setter (enabled' : bool) (m : t) : t :=
  let was_enabled := _enabled m in
  let m := set__enabled enabled' m in
  if bool_decide (enabled m <> was_enabled)
  then _update_queue true true m else m.

Definition running_setter (run : bool) (m : t) : t :=
  let was_running := _running m in
  let m := set__running run m in
  if bool_decide (_running m <> was_running)
  then _update_queue true false m else m.

(** *** Looking scripts up *)

(** [deque.index(ScriptKey(sal_index))]: position and item of the first
    script with that index. *)
Definition deque_index (sal_index : Z) (l : list SI)
    : option (nat * SI) :=
  list_find (fun s => ScriptInfo.index s = sal_index) l.

Definition get_queue_index (sal_index : Z) : M nat := fun m =>
  match deque_index sal_index (queue m) with
  | Some (i, _) => Ok i m
  | None => Raise NotQueued m
  end.

(** The part of [get_script_info] after the current script: the queue,
    and on [ValueError] the history when [search_history] is set. *)
Definition find_queued (sal_index : Z) (search_history : bool)
    : M SI := fun m =>
  match deque_index sal_index (queue m) with
  | Some (_, s) => Ok s m
  | None =>
      if search_history then
        match deque_index sal_index (history m) with
        | Some (_, s) => Ok s m
        | None => Raise NotQueued m
        end
      else Raise NotQueued m
  end.

(** [self.current_script and self.current_script.index == sal_index]. *)
Definition is_current (sal_index : Z) (m : t) : bool :=
  match current_script m with
  | Some s => bool_decide (ScriptInfo.index s = sal_index)
  | None => false
  end.

(** [get_script_info]: the current script, else the queue, else (when
    asked) the history. *)
Definition get_script_info (sal_index : Z) (search_history : bool)
    : M SI := fun m =>
  match current_script m with
  | Some s =>
      if bool_decide (ScriptInfo.index s = sal_index) then Ok s m
      else find_queued sal_index search_history m
  | None => find_queued sal_index search_history m
  end.

(** *** make_full_path *)

Definition make_full_path (fs : Paths.FileSystem) (is_standard : bool)
    (path : string) : M (list string) := fun m =>
  let root := if is_standard then standardpath m else externalpath m in
  let fullpath := Paths.joinpath root path in
  if negb (Paths.in_parents root fullpath) then Raise NotUnderRoot m
  else if negb (Paths.is_file fs fullpath) then Raise NotFound m
  else if Paths.hidden_or_private (Paths.name fullpath)
  then Raise HiddenOrPrivate m
  else if negb (Paths.access_x fs fullpath) then Raise NotExecutable m
  else Ok fullpath m.

(** *** Changing the queue *)

(** [script_info = self.queue[queue_index]; del self.queue[queue_index]];
    an [IndexError] cannot happen for an index that [deque.index] gave. *)
Definition deque_take_out (queue_index : nat) : M SI := fun m =>
  match queue m !! queue_index with
  | Some script_info =>
      Ok script_info (set_queue (delete queue_index (queue m)) m)
  | None => Raise NotQueued m
  end.

(** [pop_script_info]. *)
Definition pop_script_info (sal_index : Z) : M SI :=
  queue_index ← get_queue_index sal_index;
  deque_take_out queue_index.

(** [deque.insert(i, x)] for [i] inside the deque. *)
Definition deque_insert (i : nat) (x : SI) (l : list SI) : list SI :=
  take i l ++ x :: drop i l.

(** [_insert_script]. *)
Definition _insert_script (script_info : SI) (location : Location)
    (location_sal_index : Z) : M unit :=
  match location with
  | FIRST => modify (fun m => set_queue (script_info :: queue m) m)
  | LAST => modify (fun m => set_queue (queue m ++ [script_info]) m)
  | BEFORE | AFTER =>
      i ← get_queue_index location_sal_index;
      let location_queue_index :=
        match location with AFTER => S i | _ => i end in
      modify (fun m =>
        if bool_decide (length (queue m) <= location_queue_index)
        then set_queue (queue m ++ [script_info]) m
        else set_queue
               (deque_insert location_queue_index script_info (queue m)) m)
  | OTHER _ => raise UnknownLocation
  end ;;
  modify (_update_queue true true).

(** [move]. *)
Definition move (sal_index : Z) (location : Location)
    (location_sal_index : Z) : M unit :=
  if is_relative location && bool_decide (location_sal_index = sal_index)
  then
    get_queue_index sal_index ;;
    modify (_update_queue true true)
  else
    m0 ← get;
    let old_queue := queue m0 in
    script_info ← pop_script_info sal_index;
    try_except_reraise
      (_insert_script script_info location location_sal_index)
      (set_queue old_queue).

(** *** Index allocation *)

(** [salobj.index_generator(imin, imax)] is a library generator: it
    counts up from [imin] and starts again at [imin] after [imax].  It is
    built from the two bounds alone and is handed nothing else, so what
    it yields does not depend on the scripts in the model. *)
Definition index_generator_next (imin imax index : Z) : Z :=
  let index := (index + 1)%Z in
  if bool_decide (imax < index)%Z then imin else index.

(** [next_sal_index]: [next(self._index_generator)]. *)
Definition next_sal_index : M Z := fun m =>
  let i := index_generator_next (min_sal_index m) (max_sal_index m)
             (_index_generator m) in
  Ok i (set__index_generator i m).

(** *** add and requeue *)

(** [add], up to the end of loading.  [loaded] is the outcome of
    [asyncio.wait_for(script_info.start_loading(...), _LOAD_TIMEOUT)],
    which the child process decides. *)
Definition add (fs : Paths.FileSystem) (loaded : bool) (script_info : SI)
    (location : Location) (location_sal_index : Z) : M unit :=
  make_full_path fs (ScriptInfo.is_standard script_info)
    (ScriptInfo.path script_info) ;;
  _insert_script script_info location location_sal_index ;;
  modify (emit [StartLoading (ScriptInfo.index script_info)]) ;;
  if loaded then mret tt else raise LoadTimeout.

(** [requeue]. *)
Definition requeue (fs : Paths.FileSystem) (loaded : bool)
    (sal_index seq_num : Z) (location : Location) (location_sal_index : Z)
    : M SI :=
  old_script_info ← get_script_info sal_index true;
  index ← next_sal_index;
  let script_info :=
    ScriptInfo.new index seq_num
      (ScriptInfo.is_standard old_script_info)
      (ScriptInfo.path old_script_info)
      (ScriptInfo.config old_script_info)
      (ScriptInfo.descr old_script_info) in
  add fs loaded script_info location location_sal_index ;;
  mret script_info.

(** *** _remove_script *)

Definition after_removal (sal_index : Z) : M unit := fun m =>
  if bool_decide (sal_index ∈ _scripts_being_stopped m) then
    let m1 := set__scripts_being_stopped
                (_scripts_being_stopped m ∖ {[sal_index]}) m in
    if bool_decide (_scripts_being_stopped m1 = ∅)
    then Ok tt (_update_queue true true m1)
    else Ok tt m1
  else Ok tt (_update_queue true true m).

Definition _remove_script (sal_index : Z) : M unit := fun m =>
  if is_current sal_index m
  then after_removal sal_index m
  else if bool_decide (sal_index ∈ queue_indices m) then
    ((script_info ← pop_script_info sal_index;
      modify (fun m =>
        set_history (history_appendleft script_info (history m)) m) ;;
      after_removal sal_index) : M unit) m
  else Ok tt m.

(** *** _script_info_callback *)

(** The callback that [_insert_script] installs on every script: the
    removal of a finished script is left to a task, and a change of the
    configured top script makes the scheduler step. *)
Definition _script_info_callback (script_info : SI) (m : t) : t :=
  let m := if script_callback m
           then emit [ScriptCallback (ScriptInfo.index script_info)] m
           else m in
  if ScriptInfo.process_done script_info
     || ScriptInfo.terminated script_info
  then emit [RemoveScriptTask (ScriptInfo.index script_info)] m
  else match queue m with
       | top :: _ =>
           if bool_decide (ScriptInfo.index top
                             = ScriptInfo.index script_info)
              && ScriptInfo.configured script_info
           then _update_queue false true m
           else m
       | [] => m
       end.

(** *** Changes reported by the child processes *)



(** ** Membership of indices *)

Definition current_indices (m : t) : list Z :=
  match current_script m with
  | Some s => [ScriptInfo.index s]
  | None => []
  end.

(** The indices held by the model, container after container. *)
Definition all_indices (m : t) : list Z :=
  current_indices m ++ queue_indices m ++ history_indices m.

(** No index is held twice. *)
Definition unique_membership (m : t) : Prop := NoDup (all_indices m).

#[export] Instance unique_membership_dec m : Decision (unique_membership m).
Proof. unfold unique_membership. apply _. Defined.



Lemma submseteq_NoDup (l k : list Z) : l ⊆+ k -> NoDup k -> NoDup l.
Proof.
  intros Hsub Hnd. apply submseteq_Permutation in Hsub as [k' Hk'].
  rewrite Hk' in Hnd. by apply NoDup_app in Hnd as (? & _ & _).
Qed.

Lemma indices_history_appendleft s h :
  indices (history_appendleft s h) ⊆+ ScriptInfo.index s :: indices h.
Proof.
  unfold history_appendleft, indices. rewrite fmap_take.
  apply sublist_submseteq, sublist_take.
Qed.

(** The steps of [_update_queue] only move indices between containers or
    drop them from the history. *)
Lemma reap_current_indices pof m :
  all_indices (reap_current pof m) ⊆+ all_indices m.
Proof.
  unfold reap_current, all_indices, current_indices, queue_indices,
    history_indices.
  destruct (current_script m) as [s|] eqn:Hc; [|by rewrite Hc].
  destruct (ScriptInfo.process_done s); [|by rewrite Hc].
  destruct (ScriptInfo.failed s && _); simpl; [by rewrite Hc|].
  etrans; [apply submseteq_skips_l, indices_history_appendleft|].
  apply Permutation_submseteq.
  by rewrite (Permutation_middle (indices (queue m))).
Qed.

Lemma skim_and_promote_indices q m :
  queue m = q ->
  all_indices (skim_and_promote q m) ⊆+ all_indices m.
Proof.
  revert m. induction q as [|s q IH]; intros m Hq; simpl; [done|].
  destruct (ScriptInfo.process_done s || ScriptInfo.terminated s).
  - etrans; [apply IH; reflexivity|].
    unfold all_indices, queue_indices, history_indices, current_indices.
    simpl. rewrite Hq. apply submseteq_skips_l. simpl.
    etrans; [apply submseteq_skips_l, indices_history_appendleft|].
    apply Permutation_submseteq.
    by rewrite (Permutation_middle (indices q)).
  - destruct (negb _ && _ && _) eqn:Hp; [|done].
    unfold all_indices, queue_indices, history_indices, current_indices.
    simpl. rewrite Hq.
    destruct (current_script m); [|done].
    rewrite bool_decide_eq_true_2 in Hp by eauto. done.
Qed.

Lemma unstage_index m s : ScriptInfo.index (unstage m s).1 = ScriptInfo.index s.
Proof. unfold unstage. by destruct (_ || _). Qed.

Lemma stage_queue_indices m : queue_indices (stage m) = queue_indices m.
Proof.
  unfold stage, queue_indices, indices.
  destruct (queue m) as [|top rest] eqn:Hq; [by rewrite Hq|].
  simpl. f_equal. rewrite <- !list_fmap_compose.
  apply list_fmap_ext. intros ? s _. apply unstage_index.
Qed.

Lemma stage_all_indices m : all_indices (stage m) = all_indices m.
Proof.
  unfold all_indices. rewrite stage_queue_indices.
  unfold stage. by destruct (queue m).
Qed.

Lemma _update_queue_indices fc pof m :
  all_indices (_update_queue fc pof m) ⊆+ all_indices m.
Proof.
  unfold _update_queue.
  set (m1 := reap_current pof m).
  set (m2 := if enabled m1 && running m1 then _ else m1).
  assert (all_indices m2 ⊆+ all_indices m) as H2.
  { subst m2. trans (all_indices m1); [|apply reap_current_indices].
    destruct (enabled m1 && running m1); [|reflexivity].
    rewrite stage_all_indices. by apply skim_and_promote_indices. }
  destruct (_ || _); [|done]. by destruct (queue_callback m2).
Qed.

(** *** Facts about lookups *)

Lemma deque_index_Some i l k s :
  deque_index i l = Some (k, s) ->
  l !! k = Some s /\ ScriptInfo.index s = i.
Proof.
  unfold deque_index. intros H.
  apply list_find_Some in H as (? & ? & _). done.
Qed.

Lemma deque_index_None i l :
  deque_index i l = None <-> i ∉ indices l.
Proof.
  unfold deque_index, indices. rewrite list_find_None, Forall_forall.
  split.
  - intros H Hin. apply list_elem_of_fmap in Hin as (s & -> & Hs).
    by apply (H s).
  - intros H s Hs Heq. apply H. subst i. by apply list_elem_of_fmap_2.
Qed.

Lemma deque_index_is_Some i l :
  i ∈ indices l -> exists k s, deque_index i l = Some (k, s).
Proof.
  intros Hin. destruct (deque_index i l) as [[k s]|] eqn:H; [eauto|].
  by apply deque_index_None in H.
Qed.

Lemma pop_script_info_Some i m k s :
  deque_index i (queue m) = Some (k, s) ->
  pop_script_info i m = Ok s (set_queue (delete k (queue m)) m).
Proof.
  intros H. unfold pop_script_info, mbind, M_bind, get_queue_index.
  rewrite H. unfold deque_take_out.
  apply deque_index_Some in H as [-> _]. done.
Qed.

Lemma pop_script_info_None i m :
  deque_index i (queue m) = None ->
  pop_script_info i m = Raise NotQueued m.
Proof.
  intros H. unfold pop_script_info, mbind, M_bind, get_queue_index.
  by rewrite H.
Qed.


Lemma after_removal_indices i m :
  exists m', after_removal i m = Ok tt m' /\
             all_indices m' ⊆+ all_indices m.
Proof.
  unfold after_removal. repeat case_bool_decide;
    eexists; (split; [reflexivity|]);
    try (etrans; [apply _update_queue_indices|]); reflexivity.
Qed.



(** ** What [_update_queue] leaves alone *)

Lemma skim_and_promote_flags q m :
  _running (skim_and_promote q m) = _running m /\
  _enabled (skim_and_promote q m) = _enabled m.
Proof.
  revert m. induction q as [|s q IH]; intros m; simpl; [done|].
  destruct (_ || _); [by rewrite !(proj1 (IH _)), !(proj2 (IH _))|].
  by destruct (_ && _ && _).
Qed.

Lemma stage_flags m :
  _running (stage m) = _running m /\ _enabled (stage m) = _enabled m.
Proof. unfold stage. by destruct (queue m). Qed.

(** The state of [_update_queue] before the queue callback is
    considered. *)
Definition before_callback (pause_on_failure : bool) (m : t) : t :=
  let m1 := reap_current pause_on_failure m in
  if enabled m1 && running m1
  then stage (skim_and_promote (queue m1) m1)
  else m1.

(** The queue callback changes the trace only. *)
Lemma _update_queue_fields fc pof m :
  let m' := _update_queue fc pof m in
  let m2 := before_callback pof m in
  queue m' = queue m2 /\ history m' = history m2 /\
  current_script m' = current_script m2 /\
  _running m' = _running m2 /\ _enabled m' = _enabled m2 /\
  _index_generator m' = _index_generator m2 /\
  min_sal_index m' = min_sal_index m2 /\
  max_sal_index m' = max_sal_index m2.
Proof.
  unfold _update_queue, before_callback. simpl.
  destruct (_ || _); [|done].
  by destruct (queue_callback _).
Qed.

Lemma reap_current_enabled pof m :
  _enabled (reap_current pof m) = _enabled m.
Proof.
  unfold reap_current. destruct (current_script m) as [s|]; [|done].
  destruct (ScriptInfo.process_done s); [|done].
  by destruct (_ && _).
Qed.

(** ** The group id of queued scripts *)

(** A script holds a group id when one is set or is being set. *)
Definition holds_group_id (s : SI) : bool :=
  ScriptInfo.truthy (ScriptInfo.group_id s) || ScriptInfo.setting_group_id s.

(** Only the script at the top of the queue holds a group id. *)
Definition group_id_monopoly (m : t) : Prop :=
  forall (k : nat) (s : SI),
    queue m !! k = Some s -> holds_group_id s = true -> k = 0.

Lemma unstage_releases m s : holds_group_id (unstage m s).1 = false.
Proof.
  unfold unstage.
  destruct (ScriptInfo.truthy (ScriptInfo.group_id s) || _) eqn:H;
    [reflexivity|exact H].
Qed.

Lemma stage_monopoly m : group_id_monopoly (stage m).
Proof.
  unfold group_id_monopoly, stage. intros k s.
  destruct (queue m) as [|top rest] eqn:Hq.
  { rewrite Hq. by rewrite lookup_nil. }
  simpl. destruct k as [|k]; [done|]. simpl.
  rewrite <- list_fmap_compose, list_lookup_fmap.
  destruct (rest !! k) as [s'|]; [|done]. simpl.
  intros [= <-]. by rewrite unstage_releases.
Qed.

(** The first block of [_update_queue] leaves the queue and the trace
    alone, and can only pause the model. *)
Lemma reap_current_queue_trace pof m :
  queue (reap_current pof m) = queue m /\
  trace (reap_current pof m) = trace m /\
  (enabled m && running m = false ->
   enabled (reap_current pof m) && running (reap_current pof m) = false).
Proof.
  unfold reap_current, enabled, running.
  destruct (current_script m) as [s|]; [|done].
  destruct (ScriptInfo.process_done s); [|done].
  destruct (ScriptInfo.failed s && _); simpl; [|done].
  split_and!; try done. intros _. apply andb_false_r.
Qed.

(** The two flags after [_update_queue] are those that its guard
    [if self.enabled and self.running] has tested. *)
Lemma _update_queue_guard fc pof m :
  enabled (_update_queue fc pof m) && running (_update_queue fc pof m) =
  enabled (reap_current pof m) && running (reap_current pof m).
Proof.
  destruct (_update_queue_fields fc pof m) as (_ & _ & _ & Hr & He & _).
  unfold enabled, running in *. rewrite Hr, He.
  unfold before_callback, enabled, running.
  destruct (_enabled (reap_current pof m) && _running (reap_current pof m))
    eqn:Hg; [|exact Hg].
  rewrite (proj1 (stage_flags _)), (proj2 (stage_flags _)).
  rewrite (proj1 (skim_and_promote_flags _ _)),
    (proj2 (skim_and_promote_flags _ _)).
  exact Hg.
Qed.

(** C3 (amended).  The clearing loop of [_update_queue] is inside
    [if self.enabled and self.running].  After a completed
    [_update_queue] step that leaves the model enabled and running (the
    two values the guard tested), a queued script that holds a group id,
    set or in flight, is the script at the top of the queue: every other
    queued script has had it cleared.  While the model is disabled or
    paused, [_update_queue] clears no group id: a step that leaves the
    model disabled or paused, as every step on a disabled or paused
    model does, leaves the queue and each script on it as they were, and
    the queue callback is all it may call: it sends no command that
    clears a group id and reports no canceled visit. *)
Theorem C3_group_id_monopoly_when_running (m : t)
    (force_callback pause_on_failure : bool) :
  let m' := _update_queue force_callback pause_on_failure m in
  (enabled m' = true -> running m' = true ->
   group_id_monopoly m' /\
   Forall (fun s => ScriptInfo.group_id s = ""
                    /\ ScriptInfo.setting_group_id s = false)
          (tail (queue m'))) /\
  (enabled m' && running m' = false ->
   queue m' = queue m /\
   exists evs, trace m' = trace m ++ evs /\
               forall e, e ∈ evs -> e = QueueCallback) /\
  (enabled m && running m = false -> enabled m' && running m' = false).
Proof.
  intros m'. split; [|split].
  - destruct (_update_queue_fields force_callback pause_on_failure m)
      as (Hq & _ & _ & Hr & He & _).
    fold m' in Hq, Hr, He. unfold enabled, running. rewrite Hr, He.
    intros Hen Hrun.
    assert (group_id_monopoly m') as Hmono.
    { unfold group_id_monopoly. rewrite Hq.
      unfold before_callback in *.
      destruct (enabled _ && running _) eqn:Hg.
      - apply stage_monopoly.
      - unfold enabled, running in Hg. by rewrite Hen, Hrun in Hg. }
    split; [exact Hmono|].
    apply Forall_lookup. intros k s Hk.
    rewrite lookup_tail in Hk.
    assert (holds_group_id s = false) as Hh.
    { destruct (holds_group_id s) eqn:Hh; [|done].
      by specialize (Hmono (S k) s Hk Hh). }
    unfold holds_group_id in Hh. apply orb_false_iff in Hh as [Hg Hs].
    split; [|exact Hs]. by destruct (ScriptInfo.group_id s).
  - subst m'. rewrite _update_queue_guard. intros Hoff.
    destruct (reap_current_queue_trace pause_on_failure m)
      as (Hq & Ht & _).
    unfold _update_queue. rewrite Hoff.
    destruct (_ || _); [destruct (queue_callback _)|]; simpl;
      rewrite Hq, Ht; (split; [done|]).
    + exists [QueueCallback]. split; [done|].
      by intros e He%list_elem_of_singleton.
    + exists []. split; [by rewrite app_nil_r|].
      by intros e He%not_elem_of_nil.
    + exists []. split; [by rewrite app_nil_r|].
      by intros e He%not_elem_of_nil.
  - subst m'. rewrite _update_queue_guard.
    exact (proj2 (proj2 (reap_current_queue_trace pause_on_failure m))).
Qed.

(** ** Pause on failure *)

(** A run of [_update_queue] calls, each with its own
    [(force_callback, pause_on_failure)]. *)
Fixpoint _update_queue_calls (calls : list (bool * bool)) (m : t) : t :=
  match calls with
  | [] => m
  | (force_callback, pause_on_failure) :: calls' =>
      _update_queue_calls calls'
        (_update_queue force_callback pause_on_failure m)
  end.

Lemma failed_current_stays (s : SI) (pof : bool) (m : t) :
  current_script m = Some s ->
  ScriptInfo.process_done s = true ->
  ScriptInfo.failed s = true ->
  pof = true \/ running m = false ->
  let m2 := before_callback pof m in
  current_script m2 = Some s /\ queue m2 = queue m /\
  history m2 = history m /\ running m2 = false.
Proof.
  intros Hc Hd Hf Hp. unfold before_callback, reap_current.
  rewrite Hc, Hd, Hf.
  assert (pof || negb (running m) = true) as ->.
  { destruct Hp as [->| ->]; [done|by rewrite orb_true_r]. }
  simpl. rewrite andb_false_r. done.
Qed.

Lemma failed_current_stays_calls (s : SI) (calls : list (bool * bool)) :
  forall m : t,
    current_script m = Some s ->
    ScriptInfo.process_done s = true ->
    ScriptInfo.failed s = true ->
    running m = false ->
    let m' := _update_queue_calls calls m in
    current_script m' = Some s /\ queue m' = queue m /\
    history m' = history m /\ running m' = false.
Proof.
  induction calls as [|[fc pof] calls IH]; intros m Hc Hd Hf Hr; [done|].
  simpl.
  destruct (failed_current_stays s pof m Hc Hd Hf (or_intror Hr))
    as (Hc2 & Hq2 & Hh2 & Hr2).
  destruct (_update_queue_fields fc pof m) as (Hq & Hh & Hcur & Hrun & _).
  destruct (IH (_update_queue fc pof m)) as (Hc3 & Hq3 & Hh3 & Hr3);
    [congruence|done|done|unfold running in *; congruence|].
  split_and!; congruence.
Qed.

(** C4.  When the current script's process is done and the script
    failed, [_update_queue] with [pause_on_failure=True] keeps it as the
    current script, puts nothing on the history, leaves the queue as it
    is and sets [running] to false; and whatever [_update_queue] calls
    follow while [running] is false, the current script, the queue and
    the history stay as they are. *)
Theorem C4_pause_on_failure (m : t) (s : SI) (force_callback : bool) :
  current_script m = Some s ->
  ScriptInfo.process_done s = true ->
  ScriptInfo.failed s = true ->
  let m' := _update_queue force_callback true m in
  (current_script m' = Some s /\ history m' = history m /\
   queue m' = queue m /\ running m' = false) /\
  (forall calls : list (bool * bool),
     let m'' := _update_queue_calls calls m' in
     current_script m'' = Some s /\ history m'' = history m /\
     queue m'' = queue m /\ running m'' = false).
Proof.
  intros Hc Hd Hf m'.
  destruct (failed_current_stays s true m Hc Hd Hf (or_introl eq_refl))
    as (Hc2 & Hq2 & Hh2 & Hr2).
  destruct (_update_queue_fields force_callback true m)
    as (Hq & Hh & Hcur & Hrun & _).
  fold m' in Hq, Hh, Hcur, Hrun.
  assert (current_script m' = Some s /\ history m' = history m /\
          queue m' = queue m /\ running m' = false) as H'.
  { unfold running in *. split_and!; congruence. }
  split; [exact H'|].
  intros calls m''. destruct H' as (Hc' & Hh' & Hq' & Hr').
  destruct (failed_current_stays_calls s calls m' Hc' Hd Hf Hr')
    as (Hc'' & Hq'' & Hh'' & Hr'').
  fold m'' in Hc'', Hq'', Hh'', Hr''. split_and!; congruence.
Qed.

(** Setting [running] to true again is what moves the failed script on:
    it is reaped, and what becomes current is not a script whose process
    is done. *)
Lemma skim_and_promote_current q m :
  match current_script (skim_and_promote q m) with
  | Some c => current_script m = Some c \/ ScriptInfo.process_done c = false
  | None => True
  end.
Proof.
  revert m. induction q as [|s q IH]; intros m; simpl.
  { destruct (current_script m); eauto. }
  destruct (ScriptInfo.process_done s || ScriptInfo.terminated s) eqn:Hd.
  { specialize (IH (set_queue q
      (set_history (history_appendleft s (history m)) m))).
    exact IH. }
  destruct (negb _ && _ && _) eqn:Hp.
  - simpl. right. apply orb_false_iff in Hd as [Hd _]. exact Hd.
  - destruct (current_script m); eauto.
Qed.

Lemma resume_reaps_failed (m : t) (s : SI) :
  current_script m = Some s ->
  ScriptInfo.process_done s = true ->
  running m = false ->
  current_script (running_setter true m) <> Some s.
Proof.
  intros Hc Hd Hr. unfold running_setter. unfold running in Hr.
  simpl. rewrite Hr. simpl.
  destruct (_update_queue_fields true false (set__running true m))
    as (_ & _ & -> & _).
  unfold before_callback, reap_current. simpl. rewrite Hc, Hd.
  rewrite andb_false_r. simpl.
  destruct (_enabled m) eqn:He; simpl; [|done].
  unfold stage.
  match goal with |- context [skim_and_promote ?q ?m0] =>
    pose proof (skim_and_promote_current q m0) as Hs;
    destruct (queue (skim_and_promote q m0));
    simpl; destruct (current_script (skim_and_promote q m0)) as [c|];
    try done; destruct Hs as [Hs|Hs]; try done; intros [= ->]; congruence
  end.
Qed.

(** ** Invariants of the methods *)

(** [c] keeps [P]: from a state where [P] holds, [c] ends, by return or
    by raise, in a state where [P] holds. *)
Definition preserves (P : t -> Prop) {A : Type} (c : M A) : Prop :=
  forall m : t, P m -> P (state_of (c m)).

Section Preserves.

Variable P : t -> Prop.







(** The conditions under which every method keeps [P]: [P] looks at
    nothing that the setters of the queue, the trace, the generator and
    the stop set change, and [_update_queue] keeps it. *)
Hypothesis P_set_queue : forall q m, P m -> P (set_queue q m).
Hypothesis P_emit : forall evs m, P m -> P (emit evs m).
Hypothesis P_set__index_generator :
  forall g m, P m -> P (set__index_generator g m).
Hypothesis P_update_queue : forall fc pof m, P m -> P (_update_queue fc pof m).





Lemma preserves_make_full_path fs std p :
  preserves P (make_full_path fs std p).
Proof.
  intros m Hm. unfold make_full_path.
  repeat (match goal with |- context [if ?b then _ else _] =>
            destruct b end; simpl; try exact Hm).
Qed.




End Preserves.

(** ** The reachable states *)



(** ** The bound on the history *)




Lemma history_appendleft_room s h :
  length h < MAX_HISTORY -> history_appendleft s h = s :: h.
Proof.
  intros H. unfold history_appendleft. apply take_ge. simpl. lia.
Qed.




Lemma stage_history m : history (stage m) = history m.
Proof. unfold stage. by destruct (queue m). Qed.






(** ** move *)

Lemma set_queue_restore q m : set_queue (queue m) (set_queue q m) = m.
Proof. by destruct m. Qed.

Lemma skim_and_promote_queue q m :
  queue m = q -> queue (skim_and_promote q m) `suffix_of` q.
Proof.
  revert m. induction q as [|s q IH]; intros m Hq; simpl.
  { by rewrite Hq. }
  destruct (_ || _).
  - apply suffix_cons_r. by apply IH.
  - destruct (_ && _ && _); simpl.
    + apply suffix_cons_r. done.
    + by rewrite Hq.
Qed.

(** [_update_queue] takes scripts from the front of the queue and
    nothing else: the indices left are a suffix of those before. *)
Lemma _update_queue_queue_indices fc pof m :
  queue_indices (_update_queue fc pof m) `suffix_of` queue_indices m.
Proof.
  unfold queue_indices at 1.
  destruct (_update_queue_fields fc pof m) as (-> & _).
  unfold before_callback.
  assert (queue (reap_current pof m) = queue m) as Hq.
  { unfold reap_current. destruct (current_script m) as [s|]; [|done].
    destruct (ScriptInfo.process_done s); [|done]. by destruct (_ && _). }
  destruct (_ && _); [|by rewrite Hq].
  fold (queue_indices (stage (skim_and_promote
    (queue (reap_current pof m)) (reap_current pof m)))).
  rewrite stage_queue_indices. unfold queue_indices. rewrite <- Hq.
  destruct (skim_and_promote_queue (queue (reap_current pof m))
              (reap_current pof m) eq_refl) as [k Hk].
  rewrite Hk at 2. unfold indices. rewrite fmap_app. by eexists.
Qed.

(** While the model is disabled or paused, [_update_queue] leaves the
    queue as it is. *)
Lemma _update_queue_queue_paused fc pof m :
  enabled m && running m = false ->
  queue (_update_queue fc pof m) = queue m.
Proof.
  intros Hg. destruct (_update_queue_fields fc pof m) as (-> & _).
  unfold before_callback, reap_current, enabled, running in *.
  destruct (current_script m) as [s|]; [|by rewrite Hg].
  destruct (ScriptInfo.process_done s); [|by rewrite Hg].
  destruct (ScriptInfo.failed s && _); cbn.
  - by rewrite andb_false_r.
  - by rewrite Hg.
Qed.

(** C6 (amended).  [move(i, BEFORE, i)] and [move(i, AFTER, i)] do not
    reposition anything: for [i] on the queue the call is exactly one
    [_update_queue()] step, so the scripts that stay on the queue keep
    their order, and the queue is unchanged whenever the model is
    disabled or paused; for [i] not on the queue the call raises the
    not-queued error with the model as it was. *)
Theorem C6_move_relative_to_itself (m : t) (i : Z) (location : Location) :
  is_relative location = true ->
  (i ∈ queue_indices m ->
     move i location i m = Ok tt (_update_queue true true m) /\
     queue_indices (state_of (move i location i m))
       `suffix_of` queue_indices m /\
     (enabled m && running m = false ->
      queue (state_of (move i location i m)) = queue m)) /\
  (i ∉ queue_indices m -> move i location i m = Raise NotQueued m).
Proof.
  intros Hrel. unfold move. rewrite Hrel, bool_decide_eq_true_2 by done.
  simpl. unfold mbind, M_bind, get_queue_index. split.
  - intros Hin. apply deque_index_is_Some in Hin as (k & s & ->).
    simpl. split_and!; [done| |].
    + apply _update_queue_queue_indices.
    + apply _update_queue_queue_paused.
  - intros Hnin. apply deque_index_None in Hnin. by rewrite Hnin.
Qed.

Lemma _insert_script_Raise s loc ref m e m' :
  _insert_script s loc ref m = Raise e m' -> m' = m.
Proof.
  unfold _insert_script, mbind, M_bind, modify, raise, get_queue_index.
  destruct loc; simpl; try discriminate;
    try (destruct (deque_index ref (queue m)) as [[? ?]|]; simpl;
         try discriminate);
    by intros [= _ <-].
Qed.

Lemma pop_script_info_Raise i m e m' :
  pop_script_info i m = Raise e m' -> m' = m.
Proof.
  destruct (deque_index i (queue m)) as [[k s]|] eqn:H.
  - by rewrite (pop_script_info_Some _ _ _ _ H).
  - rewrite (pop_script_info_None _ _ H). by intros [= _ <-].
Qed.

Lemma move_Raise i loc ref m e m' :
  move i loc ref m = Raise e m' -> m' = m.
Proof.
  unfold move. destruct (_ && _).
  - unfold mbind, M_bind, get_queue_index, modify.
    destruct (deque_index i (queue m)) as [[? ?]|]; [done|].
    by intros [= _ <-].
  - unfold mbind at 1, M_bind at 1, get.
    unfold mbind, M_bind.
    destruct (pop_script_info i m) as [s m1|e1 m1] eqn:Hpop.
    + unfold try_except_reraise.
      destruct (_insert_script s loc ref m1) as [[] m2|e2 m2] eqn:Hins;
        [done|].
      intros [= _ <-]. apply _insert_script_Raise in Hins as ->.
      destruct (deque_index i (queue m)) as [[k s0]|] eqn:H.
      * rewrite (pop_script_info_Some _ _ _ _ H) in Hpop.
        injection Hpop as _ <-. apply set_queue_restore.
      * by rewrite (pop_script_info_None _ _ H) in Hpop.
    + intros [= _ <-]. by apply pop_script_info_Raise in Hpop.
Qed.

(** C10.  [move] is atomic on error.  For [i] on the queue, a location
    that is no enum member makes [move] raise the unknown-location error,
    and [BEFORE] or [AFTER] a reference index that is not on the queue
    makes it raise the not-queued error; in both cases, and whenever
    [move] raises at all, the model after the raise is the model before
    the call: the queue has its contents and order back. *)
Theorem C10_move_atomic_on_error (m : t) (i : Z) (location : Location)
    (location_sal_index : Z) :
  i ∈ queue_indices m ->
  (forall v, location = OTHER v ->
     move i location location_sal_index m = Raise UnknownLocation m) /\
  (is_relative location = true ->
   location_sal_index ∉ queue_indices m ->
     move i location location_sal_index m = Raise NotQueued m) /\
  (forall e m',
     move i location location_sal_index m = Raise e m' ->
     m' = m /\ queue m' = queue m).
Proof.
  intros Hin. pose proof Hin as Hin'.
  apply deque_index_is_Some in Hin' as (k & s & Hks).
  split_and!.
  - intros v ->. unfold move. simpl.
    unfold mbind at 1, M_bind at 1, get.
    unfold mbind, M_bind. rewrite (pop_script_info_Some _ _ _ _ Hks).
    unfold try_except_reraise. simpl. by rewrite set_queue_restore.
  - intros Hrel Hnin. unfold move. rewrite Hrel.
    rewrite bool_decide_eq_false_2 by (intros ->; done). simpl.
    unfold mbind at 1, M_bind at 1, get.
    unfold mbind, M_bind. rewrite (pop_script_info_Some _ _ _ _ Hks).
    unfold try_except_reraise.
    assert (deque_index location_sal_index (delete k (queue m)) = None)
      as Hnone.
    { apply deque_index_None. intros H. apply Hnin.
      unfold queue_indices, indices in *.
      rewrite list_fmap_delete in H.
      by apply list_elem_of_delete_inv in H. }
    unfold _insert_script, mbind, M_bind, get_queue_index.
    destruct location; try discriminate; simpl; rewrite Hnone;
      by rewrite set_queue_restore.
  - intros e m' Hraise. apply move_Raise in Hraise as ->. done.
Qed.

(** ** requeue *)

(** [s] is the current script, or is on the queue, or is in the
    history. *)
Definition held (m : t) (s : SI) : Prop :=
  current_script m = Some s \/ s ∈ queue m \/ s ∈ history m.

(** The locations at which [_insert_script] can insert. *)
Definition insertable (location : Location) (location_sal_index : Z)
    (m : t) : Prop :=
  match location with
  | FIRST | LAST => True
  | BEFORE | AFTER => location_sal_index ∈ queue_indices m
  | OTHER _ => False
  end.

(** The script that [requeue] constructs from [old_script_info]. *)
Definition requeued (m : t) (seq_num : Z) (old_script_info : SI) : SI :=
  ScriptInfo.new
    (index_generator_next (min_sal_index m) (max_sal_index m)
       (_index_generator m))
    seq_num
    (ScriptInfo.is_standard old_script_info)
    (ScriptInfo.path old_script_info)
    (ScriptInfo.config old_script_info)
    (ScriptInfo.descr old_script_info).

Lemma deque_index_unique (l : list SI) (s : SI) :
  NoDup (indices l) -> s ∈ l ->
  exists k, deque_index (ScriptInfo.index s) l = Some (k, s).
Proof.
  intros Hnd Hin.
  destruct (deque_index_is_Some (ScriptInfo.index s) l) as (k & s' & Hk).
  { by apply list_elem_of_fmap_2. }
  exists k. rewrite Hk. do 2 f_equal.
  apply deque_index_Some in Hk as [Hk Hidx].
  apply list_elem_of_lookup in Hin as [j Hj].
  assert (j = k) as ->.
  { eapply NoDup_lookup; [exact Hnd| |]; unfold indices;
      rewrite list_lookup_fmap; [rewrite Hj|rewrite Hk]; simpl;
      [done|by rewrite Hidx]. }
  congruence.
Qed.

(** With unique membership, looking up the index of a held script gives
    that script. *)
Lemma get_script_info_held m s :
  unique_membership m -> held m s ->
  get_script_info (ScriptInfo.index s) true m = Ok s m.
Proof.
  unfold unique_membership, all_indices, current_indices, queue_indices,
    history_indices, held, get_script_info, find_queued.
  intros Hnd Hheld.
  destruct (current_script m) as [c|] eqn:Hc.
  - apply NoDup_app in Hnd as (_ & Hcur & Hnd).
    apply NoDup_app in Hnd as (Hq & Hqh & Hh).
    destruct Hheld as [[= ->]|[Hin|Hin]].
    + by rewrite bool_decide_eq_true_2.
    + rewrite bool_decide_eq_false_2.
      * by destruct (deque_index_unique _ _ Hq Hin) as [k ->].
      * intros Heq. apply (Hcur (ScriptInfo.index c)); [set_solver|].
        rewrite Heq. apply elem_of_app. left.
        by apply list_elem_of_fmap_2.
    + rewrite bool_decide_eq_false_2.
      * destruct (deque_index (ScriptInfo.index s) (queue m))
          as [[k' s']|] eqn:Hdq.
        { apply deque_index_Some in Hdq as [Hk Hidx]. exfalso.
          apply (Hqh (ScriptInfo.index s)).
          - rewrite <- Hidx. apply list_elem_of_fmap_2.
            by eapply list_elem_of_lookup_2.
          - by apply list_elem_of_fmap_2. }
        by destruct (deque_index_unique _ _ Hh Hin) as [k ->].
      * intros Heq. apply (Hcur (ScriptInfo.index c)); [set_solver|].
        rewrite Heq. apply elem_of_app. right.
        by apply list_elem_of_fmap_2.
  - simpl in Hnd. apply NoDup_app in Hnd as (Hq & Hqh & Hh).
    destruct Hheld as [?|[Hin|Hin]]; [done| |].
    + by destruct (deque_index_unique _ _ Hq Hin) as [k ->].
    + destruct (deque_index (ScriptInfo.index s) (queue m))
        as [[k' s']|] eqn:Hdq.
      { apply deque_index_Some in Hdq as [Hk Hidx]. exfalso.
        apply (Hqh (ScriptInfo.index s)).
        - rewrite <- Hidx. apply list_elem_of_fmap_2.
          by eapply list_elem_of_lookup_2.
        - by apply list_elem_of_fmap_2. }
      by destruct (deque_index_unique _ _ Hh Hin) as [k ->].
Qed.

Lemma get_script_info_not_held m i :
  i ∉ all_indices m -> get_script_info i true m = Raise NotQueued m.
Proof.
  unfold all_indices, current_indices, queue_indices, history_indices,
    get_script_info, find_queued.
  intros Hnin.
  assert (deque_index i (queue m) = None) as ->.
  { apply deque_index_None. intros H. apply Hnin.
    rewrite !elem_of_app. auto. }
  assert (deque_index i (history m) = None) as ->.
  { apply deque_index_None. intros H. apply Hnin.
    rewrite !elem_of_app. auto. }
  destruct (current_script m) as [c|]; [|done].
  rewrite bool_decide_eq_false_2; [done|].
  intros <-. apply Hnin. rewrite !elem_of_app. left. apply list_elem_of_here.
Qed.

Lemma make_full_path_state fs std p m m1 :
  standardpath m1 = standardpath m -> externalpath m1 = externalpath m ->
  make_full_path fs std p m1 =
  match make_full_path fs std p m with
  | Ok a _ => Ok a m1
  | Raise e _ => Raise e m1
  end.
Proof.
  intros Hs He. unfold make_full_path. rewrite Hs, He.
  repeat (match goal with |- context [if ?b then _ else _] =>
            destruct b end; simpl; try done).
Qed.

Lemma _insert_script_insertable s loc ref m :
  insertable loc ref m ->
  exists m', _insert_script s loc ref m = Ok tt m'.
Proof.
  unfold insertable, _insert_script, mbind, M_bind, modify,
    get_queue_index.
  destruct loc; simpl; try done; try (by eexists);
    intros Hin; apply deque_index_is_Some in Hin as (k & s0 & ->);
    by eexists.
Qed.

(** Counting up without wrapping gives an index above all earlier
    ones. *)
Lemma index_generator_next_fresh (imin imax index : Z) (used : list Z) :
  (forall j, j ∈ used -> (j <= index)%Z) -> (index < imax)%Z ->
  index_generator_next imin imax index ∉ used.
Proof.
  intros Hused Hlt. unfold index_generator_next.
  rewrite bool_decide_eq_false_2 by lia.
  intros Hin. apply Hused in Hin. lia.
Qed.

(** C7 (amended).  In a model with unique membership, for every script
    [s] that is current, queued or in the history,
    [requeue(s.index, seq_num, location, location_sal_index)] constructs
    a script with the [is_standard], [path], [config] and [descr] of [s],
    the given [seq_num], and as index the next value of the index
    generator; this is the script it returns, and it does return it when
    the path of [s] still resolves, the location can be inserted at and
    loading succeeds.  The generator counts on its own and is not told
    which indices are in use: its next value is distinct from every
    index in the model as long as it has not started again from
    [min_sal_index], that is, when every index in the model is at most
    the last value generated and that value is below [max_sal_index].
    For an index that no script in the model has, [requeue] raises and
    leaves the model as it was. *)
Theorem C7_requeue_copies (fs : Paths.FileSystem) (loaded : bool) (m : t)
    (s : SI) (seq_num : Z) (location : Location) (location_sal_index : Z) :
  unique_membership m ->
  held m s ->
  let s' := requeued m seq_num s in
  (ScriptInfo.is_standard s' = ScriptInfo.is_standard s /\
   ScriptInfo.path s' = ScriptInfo.path s /\
   ScriptInfo.config s' = ScriptInfo.config s /\
   ScriptInfo.descr s' = ScriptInfo.descr s /\
   ScriptInfo.seq_num s' = seq_num) /\
  (forall r m',
     requeue fs loaded (ScriptInfo.index s) seq_num location
       location_sal_index m = Ok r m' -> r = s') /\
  (forall fullpath,
     make_full_path fs (ScriptInfo.is_standard s) (ScriptInfo.path s) m
       = Ok fullpath m ->
     insertable location location_sal_index m ->
     loaded = true ->
     exists m',
       requeue fs loaded (ScriptInfo.index s) seq_num location
         location_sal_index m = Ok s' m') /\
  ((forall j, j ∈ all_indices m -> (j <= _index_generator m)%Z) ->
   (_index_generator m < max_sal_index m)%Z ->
   ScriptInfo.index s' ∉ all_indices m) /\
  (forall i, i ∉ all_indices m ->
     requeue fs loaded i seq_num location location_sal_index m
       = Raise NotQueued m).
Proof.
  intros Hu Hheld s'. pose proof (get_script_info_held m s Hu Hheld) as Hget.
  refine (conj _ (conj _ (conj _ (conj _ _)))).
  - done.
  - intros r m'. unfold requeue.
    unfold mbind at 1, M_bind at 1. rewrite Hget.
    unfold mbind at 1, M_bind at 1, next_sal_index.
    unfold mbind at 1, M_bind at 1.
    fold (requeued m seq_num s). fold s'.
    destruct (add fs loaded s' location location_sal_index _); [|done].
    unfold mret, M_ret. by intros [= <- _].
  - intros fullpath Hpath Hins ->. unfold requeue.
    unfold mbind at 1, M_bind at 1. rewrite Hget.
    unfold mbind at 1, M_bind at 1, next_sal_index.
    fold (requeued m seq_num s). fold s'.
    set (m1 := set__index_generator _ m).
    unfold mbind at 1, M_bind at 1. unfold add.
    unfold mbind at 1, M_bind at 1.
    change (ScriptInfo.is_standard s') with (ScriptInfo.is_standard s).
    change (ScriptInfo.path s') with (ScriptInfo.path s).
    rewrite (make_full_path_state fs _ _ m m1 eq_refl eq_refl), Hpath.
    unfold mbind at 1, M_bind at 1.
    destruct (_insert_script_insertable s' location location_sal_index m1)
      as [m2 ->]; [by destruct location|].
    unfold mbind, M_bind, modify, mret, M_ret. by eexists.
  - intros Hused Hlt. by apply index_generator_next_fresh.
  - intros i Hnin. unfold requeue. unfold mbind at 1, M_bind at 1.
    by rewrite (get_script_info_not_held m i Hnin).
Qed.

(** ** make_full_path and the root directory *)

(** What [make_full_path] does guarantee: a path it returns has the root
    among its parents as [pathlib] computes them, part by part, with
    [".."] counted as a part like any other. *)
Lemma make_full_path_lexical fs std p m full m' :
  make_full_path fs std p m = Ok full m' ->
  m' = m /\
  full = Paths.joinpath (if std then standardpath m else externalpath m) p /\
  Paths.in_parents (if std then standardpath m else externalpath m) full
    = true /\
  Paths.is_file fs full = true /\
  Paths.hidden_or_private (Paths.name full) = false /\
  Paths.access_x fs full = true.
Proof.
  unfold make_full_path.
  destruct (Paths.in_parents _ _) eqn:H1; simpl; [|done].
  destruct (Paths.is_file _ _) eqn:H2; simpl; [|done].
  destruct (Paths.hidden_or_private _) eqn:H3; simpl; [done|].
  destruct (Paths.access_x _ _) eqn:H4; simpl; [|done].
  by intros [= <- <-].
Qed.

(** A file system given by its entries. *)
Definition file_system (entries : list (list string * Paths.Node))
    : Paths.FileSystem := fun p =>
  match list_find (fun e => e.1 = p) entries with
  | Some (_, (_, node)) => Some node
  | None => None
  end.

(** The two script roots [/scripts/standard] and [/scripts/external],
    each with one script, next to [/usr/bin/tool]. *)
Definition example_fs : Paths.FileSystem :=
  file_system
    [ ([], Paths.Dir);
      (["scripts"], Paths.Dir);
      (["scripts"; "standard"], Paths.Dir);
      (["scripts"; "standard"; "script1"], Paths.File true);
      (["scripts"; "external"], Paths.Dir);
      (["scripts"; "external"; "script2"], Paths.File true);
      (["usr"], Paths.Dir);
      (["usr"; "bin"], Paths.Dir);
      (["usr"; "bin"; "tool"], Paths.File true) ].

Definition example_init : t :=
  init ["scripts"; "standard"] ["scripts"; "external"] true true true
       MIN_SAL_INDEX MAX_SAL_INDEX.

(** C1.  The specification asks that a relative path whose canonical
    parent chain does not contain the root be rejected.  At [is_standard = True] and
    [path = "../../usr/bin/tool"] the check [root not in
    fullpath.parents] passes, because [fullpath.parents] keeps the
    [".."] parts and so lists [/scripts/standard]; the file exists and
    is executable, and [make_full_path] returns
    [/scripts/standard/../../usr/bin/tool], whose canonical form
    [/usr/bin/tool] is not under the root. *)
Theorem C1_dotdot_leaves_the_root :
  make_full_path example_fs true "../../usr/bin/tool" example_init
    = Ok ["scripts"; "standard"; ".."; ".."; "usr"; "bin"; "tool"]
         example_init /\
  Paths.canonical ["scripts"; "standard"; ".."; ".."; "usr"; "bin"; "tool"]
    = ["usr"; "bin"; "tool"] /\
  Paths.in_parents (standardpath example_init) ["usr"; "bin"; "tool"]
    = false.
Proof. by vm_compute. Qed.

(** ** Examples *)

(** Decide a closed decidable proposition by evaluation. *)
Ltac by_evaluation := apply (bool_decide_unpack _); vm_compute; exact I.

(** A script that has been added and has reported nothing yet. *)
Definition example_script (index : Z) : SI :=
  ScriptInfo.new index 1 true "script1" "wait_time: 1" "test script".

Definition with_report (configured process_done failed terminated : bool)
    (group_id : string) (setting_group_id : bool) (s : SI) : SI :=
  ScriptInfo.mk (ScriptInfo.index s) (ScriptInfo.seq_num s)
    (ScriptInfo.is_standard s) (ScriptInfo.path s) (ScriptInfo.config s)
    (ScriptInfo.descr s) configured process_done failed terminated
    group_id setting_group_id.

(** Configured, with a group id: runnable. *)
Definition staged (s : SI) : SI :=
  with_report true false false false "2020-01-17T22:59:05.721" false s.

(** Configured, waiting for a group id. *)
Definition ready (s : SI) : SI :=
  with_report true false false false "" false s.

(** The process has ended normally. *)
Definition finished (s : SI) : SI :=
  with_report true true false false "2020-01-17T22:59:05.721" false s.

(** The process has ended and the script failed. *)
Definition crashed (s : SI) : SI :=
  with_report true true true false "2020-01-17T22:59:05.721" false s.

(** An enabled, running model: script 1000 is current and has just
    finished, 1001 is staged at the top of the queue, 1002 and 1003
    follow, 999 is in the history. *)
Definition example_model : t :=
  set_current_script (Some (finished (example_script 1000)))
    (set_queue [staged (example_script 1001); ready (example_script 1002);
                example_script 1003]
       (set_history [finished (example_script 999)]
          (set__index_generator 1003
             (set__enabled true example_init)))).

Lemma example_model_unique : unique_membership example_model.
Proof. by_evaluation. Qed.


(** The same scripts after the step: 1000 in the history, 1001
    current, 1002 at the top. *)
Example example_model_step :
  let m' := _update_queue true true example_model in
  current_index m' = 1001%Z /\ queue_indices m' = [1002; 1003]%Z /\
  history_indices m' = [1000; 999]%Z /\
  trace m' = [RunCommand 1001; SetGroupIdTask 1002; QueueCallback].
Proof. by vm_compute. Qed.

(** The operator has paused the queue while 1000 was staged at the top,
    and has then moved 1001 to the front. *)
Definition paused_model : t :=
  set_queue [staged (example_script 1000); ready (example_script 1001)]
    (set__running false (set__enabled true example_init)).

Example paused_model_move :
  exists m', move 1001 FIRST 0 paused_model = Ok tt m' /\
    queue m' = [ready (example_script 1001); staged (example_script 1000)].
Proof. eexists. by vm_compute. Qed.

(** C3, as stated, fails: the step that ends [move(1001, FIRST, 0)] on
    the paused model leaves script 1000 with its group id at the second
    place of the queue. *)
Lemma C3_group_id_monopoly_counterexample :
  ~ (forall (m : t) (force_callback pause_on_failure : bool),
       group_id_monopoly (_update_queue force_callback pause_on_failure m)).
Proof.
  intros H.
  specialize (H (set_queue [ready (example_script 1001);
                            staged (example_script 1000)] paused_model)
                true true 1 (staged (example_script 1000))
                eq_refl eq_refl).
  discriminate H.
Qed.

Lemma C3_group_id_monopoly_when_running_witness :
  let m := set_queue [ready (example_script 1001);
                      staged (example_script 1000)] paused_model in
  let m' := _update_queue true true (set__running true m) in
  (enabled m' = true /\ running m' = true /\
   group_id_monopoly m' /\
   Forall (fun s => ScriptInfo.group_id s = ""
                    /\ ScriptInfo.setting_group_id s = false)
          (tail (queue m'))) /\
  (enabled m && running m = false /\
   queue (_update_queue true true m) = queue m /\
   exists evs, trace (_update_queue true true m) = trace m ++ evs /\
               forall e, e ∈ evs -> e = QueueCallback).
Proof.
  intros m m'. split.
  - split; [reflexivity|]. split; [reflexivity|].
    apply (C3_group_id_monopoly_when_running (set__running true m)
             true true); reflexivity.
  - split; [reflexivity|].
    apply (C3_group_id_monopoly_when_running m true true). reflexivity.
Defined.

(** Script 1000 failed while it was current. *)
Definition failed_model : t :=
  set_current_script (Some (crashed (example_script 1000))) example_model.

Lemma C4_pause_on_failure_witness :
  let s := crashed (example_script 1000) in
  let m' := _update_queue true true failed_model in
  (current_script m' = Some s /\ history m' = history failed_model /\
   queue m' = queue failed_model /\ running m' = false) /\
  (forall calls : list (bool * bool),
     let m'' := _update_queue_calls calls m' in
     current_script m'' = Some s /\ history m'' = history failed_model /\
     queue m'' = queue failed_model /\ running m'' = false).
Proof.
  apply (C4_pause_on_failure failed_model (crashed (example_script 1000))
           true); reflexivity.
Defined.

(** After the pause the operator resumes: the failed script goes to the
    history and 1001 runs. *)
Example failed_model_resume :
  let m' := running_setter true (_update_queue true true failed_model) in
  current_index m' = 1001%Z /\ history_indices m' = [1000; 999]%Z /\
  running m' = true.
Proof. by vm_compute. Qed.

(** The model after [n] scripts have been added at the end of the queue
    of an enabled model, each found finished by the step that ends its
    insertion, so that each goes to the history. *)
Fixpoint filled (n : nat) : t :=
  match n with
  | O => enabled_setter true example_init
  | S n' =>
      state_of (_insert_script
                  (finished (example_script (1000 + Z.of_nat n')))
                  LAST 0 (filled n'))
  end.


(** Four hundred entries fill the history; the next one pushes out
    index 1000, the first that went in. *)
Example filled_history :
  length (history (filled 400)) = 400 /\
  last (history_indices (filled 400)) = Some 1000%Z /\
  head (history_indices (filled 401)) = Some 1400%Z /\
  last (history_indices (filled 401)) = Some 1001%Z /\
  length (history (filled 401)) = 400.
Proof. by vm_compute. Qed.


(** Script 1000 is at the top of the queue and its process has ended;
    the task that removes it has not run yet. *)
Definition stale_model : t :=
  set_queue [finished (example_script 1000); ready (example_script 1001)]
    (set__enabled true example_init).

(** C6, as stated, fails: [move(1001, BEFORE, 1001)] on a model whose
    top script has ended runs [_update_queue], which takes that script
    off the queue. *)
Lemma C6_move_relative_to_itself_counterexample :
  ~ (forall (m : t) (i : Z),
       i ∈ queue_indices m ->
       queue (state_of (move i BEFORE i m)) = queue m).
Proof.
  intros H. specialize (H stale_model 1001%Z).
  assert (1001%Z ∈ queue_indices stale_model) as Hin by by_evaluation.
  specialize (H Hin). vm_compute in H. discriminate H.
Qed.

Lemma C6_move_relative_to_itself_witness :
  is_relative AFTER = true /\
  (1001%Z ∈ queue_indices stale_model ->
     move 1001 AFTER 1001 stale_model
       = Ok tt (_update_queue true true stale_model) /\
     queue_indices (state_of (move 1001 AFTER 1001 stale_model))
       `suffix_of` queue_indices stale_model /\
     (enabled stale_model && running stale_model = false ->
      queue (state_of (move 1001 AFTER 1001 stale_model))
        = queue stale_model)) /\
  (1001%Z ∉ queue_indices stale_model ->
     move 1001 AFTER 1001 stale_model = Raise NotQueued stale_model).
Proof.
  split.
  - reflexivity.
  - apply (C6_move_relative_to_itself stale_model 1001 AFTER). reflexivity.
Defined.

(** On the paused model the same call changes nothing in the queue. *)
Example paused_model_move_to_itself :
  queue (state_of (move 1001 BEFORE 1001 paused_model)) = queue paused_model
  /\ move 1002 BEFORE 1002 paused_model = Raise NotQueued paused_model.
Proof. by vm_compute. Qed.

(** Three scripts added at the end, then the third moved before the
    first: the queue reads 1002, 1000, 1001. *)
Example three_scripts_move :
  let add_last i m :=
    state_of (_insert_script (example_script i) LAST 0 m) in
  let m := add_last 1002%Z (add_last 1001%Z (add_last 1000%Z
             (enabled_setter true example_init))) in
  queue_indices m = [1000; 1001; 1002]%Z /\
  queue_indices (state_of (move 1002 BEFORE 1000 m))
    = [1002; 1000; 1001]%Z /\
  queue_indices (state_of (move 1000 AFTER 1002 m))
    = [1001; 1002; 1000]%Z /\
  queue_indices (state_of (move 1001 FIRST 0 m))
    = [1001; 1000; 1002]%Z.
Proof. by vm_compute. Qed.

Lemma C10_move_atomic_on_error_witness :
  1001%Z ∈ queue_indices example_model /\
  (forall v, BEFORE = OTHER v ->
     move 1001 BEFORE 1234 example_model
       = Raise UnknownLocation example_model) /\
  (is_relative BEFORE = true ->
   1234%Z ∉ queue_indices example_model ->
     move 1001 BEFORE 1234 example_model = Raise NotQueued example_model) /\
  (forall e m',
     move 1001 BEFORE 1234 example_model = Raise e m' ->
     m' = example_model /\ queue m' = queue example_model).
Proof.
  split.
  - by_evaluation.
  - apply (C10_move_atomic_on_error example_model 1001 BEFORE 1234).
    by_evaluation.
Defined.

Example example_model_move_errors :
  move 1001 BEFORE 1234 example_model = Raise NotQueued example_model /\
  move 1001 (OTHER 9) 0 example_model
    = Raise UnknownLocation example_model /\
  move 1234 FIRST 0 example_model = Raise NotQueued example_model.
Proof. by vm_compute. Qed.

(** A model made with the index range [1000, 1001]; both indices have
    been given out and both scripts are still on the queue. *)
Definition small_range_model : t :=
  set_queue [ready (example_script 1000); ready (example_script 1001)]
    (set__index_generator 1001
       (set__enabled true
          (init ["scripts"; "standard"] ["scripts"; "external"]
                true true true 1000 1001))).

(** C7, as stated, fails in its freshness part: the generator starts
    again at 1000, and the script that [requeue(1000, ...)] returns has
    the index of a script on the queue. *)
Lemma C7_requeue_copies_counterexample :
  ~ (forall (fs : Paths.FileSystem) (loaded : bool) (m : t) (s r : SI)
            (seq_num : Z) (location : Location) (location_sal_index : Z)
            (m' : t),
       unique_membership m -> held m s ->
       requeue fs loaded (ScriptInfo.index s) seq_num location
         location_sal_index m = Ok r m' ->
       ScriptInfo.index r ∉ all_indices m).
Proof.
  intros H.
  specialize (H example_fs true small_range_model
                (ready (example_script 1000))
                (requeued small_range_model 2 (ready (example_script 1000)))
                2%Z LAST 0%Z
                (state_of (requeue example_fs true 1000 2 LAST 0
                             small_range_model))).
  apply H.
  - by_evaluation.
  - right. left. by_evaluation.
  - by vm_compute.
  - by_evaluation.
Qed.

Lemma C7_requeue_copies_witness :
  let s := finished (example_script 999) in
  let s' := requeued example_model 7 s in
  unique_membership example_model /\ held example_model s /\
  (ScriptInfo.is_standard s' = ScriptInfo.is_standard s /\
   ScriptInfo.path s' = ScriptInfo.path s /\
   ScriptInfo.config s' = ScriptInfo.config s /\
   ScriptInfo.descr s' = ScriptInfo.descr s /\
   ScriptInfo.seq_num s' = 7%Z) /\
  (forall r m',
     requeue example_fs true (ScriptInfo.index s) 7 LAST 0 example_model
       = Ok r m' -> r = s') /\
  (forall fullpath,
     make_full_path example_fs (ScriptInfo.is_standard s)
       (ScriptInfo.path s) example_model = Ok fullpath example_model ->
     insertable LAST 0 example_model ->
     true = true ->
     exists m',
       requeue example_fs true (ScriptInfo.index s) 7 LAST 0 example_model
         = Ok s' m') /\
  ((forall j, j ∈ all_indices example_model ->
      (j <= _index_generator example_model)%Z) ->
   (_index_generator example_model < max_sal_index example_model)%Z ->
   ScriptInfo.index s' ∉ all_indices example_model) /\
  (forall i, i ∉ all_indices example_model ->
     requeue example_fs true i 7 LAST 0 example_model
       = Raise NotQueued example_model).
Proof.
  intros s s'.
  assert (unique_membership example_model) as Hu by by_evaluation.
  assert (held example_model s) as Hh.
  { right. right. by_evaluation. }
  split; [exact Hu|]. split; [exact Hh|].
  exact (C7_requeue_copies example_fs true example_model s 7 LAST 0 Hu Hh).
Defined.

(** The script from the history is queued again under index 1004. *)
Example example_model_requeue :
  exists m',
    requeue example_fs true 999 7 LAST 0 example_model
      = Ok (requeued example_model 7 (finished (example_script 999))) m' /\
    ScriptInfo.index (requeued example_model 7 (finished (example_script 999)))
      = 1004%Z /\
    queue_indices m' = [1002; 1003; 1004]%Z /\
    current_index m' = 1001%Z.
Proof. eexists. by vm_compute. Qed.

(** ** Further properties of the lookups *)

(** [get_script_info], case by case. *)
Lemma get_script_info_cases (sal_index : Z) (search_history : bool)
    (m : t) :
  match get_script_info sal_index search_history m with
  | Ok s m' =>
      m' = m /\ ScriptInfo.index s = sal_index /\
      (current_script m = Some s \/ (s ∈ queue m) \/
       (search_history = true /\ s ∈ history m))
  | Raise e m' =>
      m' = m /\ e = NotQueued /\
      (sal_index ∉ current_indices m) /\ (sal_index ∉ queue_indices m) /\
      (search_history = true -> sal_index ∉ history_indices m)
  end.
Proof.
  unfold get_script_info, find_queued, current_indices, queue_indices,
    history_indices.
  assert (forall l k s, deque_index sal_index l = Some (k, s) ->
            ScriptInfo.index s = sal_index /\ s ∈ l) as Hfound.
  { intros l k s H. apply deque_index_Some in H as [Hk Hi].
    split; [exact Hi|]. by eapply list_elem_of_lookup_2. }
  assert (forall c : SI, ScriptInfo.index c <> sal_index ->
            sal_index ∉ [ScriptInfo.index c]) as Hcur.
  { intros c Hne Hin. apply list_elem_of_singleton in Hin. congruence. }
  assert (sal_index ∉ @nil Z) as Hnil by apply not_elem_of_nil.
  destruct (current_script m) as [c|] eqn:Hc.
  - case_bool_decide as Hidx; [by split_and!; auto|].
    destruct (deque_index sal_index (queue m)) as [[k s]|] eqn:Hq.
    { destruct (Hfound _ _ _ Hq). split_and!; auto. }
    apply deque_index_None in Hq.
    destruct search_history; [|split_and!; auto; done].
    destruct (deque_index sal_index (history m)) as [[k s]|] eqn:Hh.
    { destruct (Hfound _ _ _ Hh). split_and!; auto. }
    apply deque_index_None in Hh. split_and!; auto.
  - destruct (deque_index sal_index (queue m)) as [[k s]|] eqn:Hq.
    { destruct (Hfound _ _ _ Hq). split_and!; auto. }
    apply deque_index_None in Hq.
    destruct search_history; [|split_and!; auto; done].
    destruct (deque_index sal_index (history m)) as [[k s]|] eqn:Hh.
    { destruct (Hfound _ _ _ Hh). split_and!; auto. }
    apply deque_index_None in Hh. split_and!; auto.
Qed.

(** What [get_script_info] returns is the current script or a script on
    the queue, or with [search_history] a script in the history, and it
    has the index asked for; when it raises, no script that was searched
    has that index.  Either way the model is left as it was. *)
Theorem get_script_info_spec (sal_index : Z) (search_history : bool)
    (m : t) :
  match get_script_info sal_index search_history m with
  | Ok s m' =>
      m' = m /\ ScriptInfo.index s = sal_index /\
      (current_script m = Some s \/ (s ∈ queue m) \/
       (search_history = true /\ s ∈ history m))
  | Raise e m' =>
      m' = m /\ e = NotQueued /\
      (sal_index ∉ current_indices m) /\ (sal_index ∉ queue_indices m) /\
      (search_history = true -> sal_index ∉ history_indices m)
  end.
Proof. exact (get_script_info_cases sal_index search_history m). Qed.

(** [pop_script_info], case by case. *)
Lemma pop_script_info_cases (sal_index : Z) (m : t) :
  match pop_script_info sal_index m with
  | Ok s m' =>
      exists k : nat,
        queue m !! k = Some s /\ ScriptInfo.index s = sal_index /\
        (forall j s', (j < k)%nat -> queue m !! j = Some s' ->
                      ScriptInfo.index s' <> sal_index) /\
        m' = set_queue (delete k (queue m)) m /\
        length (queue m') + 1 = length (queue m) /\
        queue m ≡ₚ s :: queue m'
  | Raise e m' =>
      e = NotQueued /\ m' = m /\ sal_index ∉ queue_indices m
  end.
Proof.
  destruct (deque_index sal_index (queue m)) as [[k s]|] eqn:H.
  - rewrite (pop_script_info_Some _ _ _ _ H).
    unfold deque_index in H. apply list_find_Some in H as (Hk & Hi & Hfirst).
    exists k. split_and!; try done.
    + intros j s' Hj Hs'. by apply (Hfirst j s').
    + simpl. rewrite length_delete by eauto.
      apply lookup_lt_Some in Hk. lia.
    + simpl. by apply delete_Permutation.
  - rewrite (pop_script_info_None _ _ H). split_and!; try done.
    by apply deque_index_None.
Qed.

(** [pop_script_info] takes out the first script on the queue that has
    the index, and nothing else: the queue loses that one entry and the
    rest of the model stays.  When no queued script has the index it
    raises and the model is unchanged, whatever the current script and
    the history hold. *)
Theorem pop_script_info_spec (sal_index : Z) (m : t) :
  match pop_script_info sal_index m with
  | Ok s m' =>
      exists k : nat,
        queue m !! k = Some s /\ ScriptInfo.index s = sal_index /\
        (forall j s', (j < k)%nat -> queue m !! j = Some s' ->
                      ScriptInfo.index s' <> sal_index) /\
        m' = set_queue (delete k (queue m)) m /\
        length (queue m') + 1 = length (queue m) /\
        queue m ≡ₚ s :: queue m'
  | Raise e m' =>
      e = NotQueued /\ m' = m /\ sal_index ∉ queue_indices m
  end.
Proof. exact (pop_script_info_cases sal_index m). Qed.

(** ** Events from the scripts *)

(** [_script_info_from_data], given the [ScriptID] of the event data:
    the script the event is for, or [None]. *)
Definition _script_info_from_data (sal_index : Z) (m : t) : option SI :=
  if bool_decide (sal_index < min_sal_index m)%Z
     || bool_decide (max_sal_index m < sal_index)%Z
  then None
  else match get_script_info sal_index false m with
       | Ok script_info _ => Some script_info
       | Raise _ _ => None
       end.

(** An event reaches a script only when its index is inside the range
    of the model and the script is current or queued: events for scripts
    in the history, for unknown indices and for indices outside the
    range are dropped, the last even when such a script is on the
    queue. *)
Theorem _script_info_from_data_spec (sal_index : Z) (m : t) :
  match _script_info_from_data sal_index m with
  | Some s =>
      (min_sal_index m <= sal_index <= max_sal_index m)%Z /\
      ScriptInfo.index s = sal_index /\
      (current_script m = Some s \/ s ∈ queue m)
  | None =>
      (sal_index < min_sal_index m)%Z \/ (max_sal_index m < sal_index)%Z \/
      ((sal_index ∉ current_indices m) /\ (sal_index ∉ queue_indices m))
  end.
Proof.
  unfold _script_info_from_data.
  pose proof (get_script_info_cases sal_index false m) as Hg.
  case_bool_decide as Hlo; simpl; [auto|].
  case_bool_decide as Hhi; simpl; [auto|].
  destruct (get_script_info sal_index false m) as [s m'|e m'].
  - destruct Hg as (_ & Hi & [Hc|[Hq|[? _]]]); [| |done];
      (split; [lia|]); auto.
  - destruct Hg as (_ & _ & Hc & Hq & _). auto.
Qed.

(** ** stop_scripts *)

(** One turn of the first loop of [stop_scripts]: a script that cannot
    be found, or whose process is done, is passed over. *)
Definition stop_scripts_visit (acc : t * list SI) (index : Z)
    : t * list SI :=
  match get_script_info index false acc.1 with
  | Raise _ _ => acc
  | Ok script_info _ =>
      if ScriptInfo.process_done script_info then acc
      else (set__scripts_being_stopped
              ({[index]} ∪ _scripts_being_stopped acc.1) acc.1,
            acc.2 ++ [script_info])
  end.

(** [stop_scripts] up to its first [await]: the stop set is emptied and
    then filled, together with the list of scripts to stop. *)
Definition stop_scripts_begin (sal_indices : list Z) (m : t)
    : t * list SI :=
  foldl stop_scripts_visit (set__scripts_being_stopped ∅ m, [])
    sal_indices.

Lemma get_script_info_stopped i sh S m :
  get_script_info i sh (set__scripts_being_stopped S m) =
  match get_script_info i sh m with
  | Ok s _ => Ok s (set__scripts_being_stopped S m)
  | Raise e _ => Raise e (set__scripts_being_stopped S m)
  end.
Proof.
  unfold get_script_info, find_queued. simpl.
  repeat (match goal with
          | |- context [match ?x with _ => _ end] => destruct x
          end; simpl; try done).
Qed.

(** The selection made by [stop_scripts] never raises and touches
    nothing but the stop set.  An index is put in the stop set exactly
    when it was asked for and the script found for it, current or
    queued, has a process that is not done; unknown indices, scripts in
    the history and finished scripts are passed over.  Every script
    selected is such a script. *)
Theorem stop_scripts_begin_spec (sal_indices : list Z) (m : t) :
  let r := stop_scripts_begin sal_indices m in
  (exists S, r.1 = set__scripts_being_stopped S m) /\
  (forall i : Z,
     i ∈ _scripts_being_stopped r.1 <->
     i ∈ sal_indices /\
     exists s, get_script_info i false m = Ok s m /\
               ScriptInfo.process_done s = false) /\
  Forall (fun s => (current_script m = Some s \/ s ∈ queue m) /\
                   ScriptInfo.process_done s = false /\
                   ScriptInfo.index s ∈ sal_indices) r.2.
Proof.
  unfold stop_scripts_begin.
  induction sal_indices as [|index l IH] using rev_ind; simpl.
  - split_and!.
    + by eexists.
    + intros i. split; [intros H; by apply not_elem_of_empty in H|].
      intros [H _]. by apply not_elem_of_nil in H.
    + constructor.
  - rewrite foldl_app. simpl.
    destruct (foldl stop_scripts_visit
                (set__scripts_being_stopped ∅ m, []) l) as [m0 l0].
    simpl in IH. destruct IH as ([S ->] & Hset & Hlist). simpl in Hset.
    assert (Forall (fun s => (current_script m = Some s \/ s ∈ queue m) /\
                             ScriptInfo.process_done s = false /\
                             ScriptInfo.index s ∈ l ++ [index]) l0)
      as Hlist'.
    { eapply Forall_impl; [exact Hlist|]. simpl.
      intros s (? & ? & ?). split_and!; auto.
      apply elem_of_app. by left. }
    assert (forall i, i ∈ l ++ [index] <-> i ∈ l \/ i = index) as Happ.
    { intros i. rewrite elem_of_app, list_elem_of_singleton. done. }
    unfold stop_scripts_visit. simpl. rewrite get_script_info_stopped.
    pose proof (get_script_info_cases index false m) as Hg.
    destruct (get_script_info index false m) as [s m1|e m1] eqn:Hget.
    + destruct Hg as (-> & Hidx & Hheld).
      destruct (ScriptInfo.process_done s) eqn:Hdone; simpl.
      * split_and!; [by eexists| |exact Hlist'].
        intros i. rewrite Hset, Happ. split.
        { intros (? & ?). auto. }
        intros ([Hin| ->] & s' & Hs' & Hd'); [eauto|].
        rewrite Hget in Hs'. injection Hs' as <-. congruence.
      * split_and!; [by eexists| |].
        { intros i. rewrite elem_of_union, elem_of_singleton.
          rewrite Hset, Happ. split.
          - intros [->|(? & ?)]; [|auto]. split; [by right|eauto].
          - intros ([Hin| ->] & Hs'); auto. }
        { apply Forall_app. split; [exact Hlist'|].
          constructor; [|constructor]. split_and!; [|done|].
          - destruct Hheld as [?|[?|[? _]]]; auto. done.
          - rewrite Hidx. apply Happ. by right. }
    + destruct Hg as (-> & _). simpl.
      split_and!; [by eexists| |exact Hlist'].
      intros i. rewrite Hset, Happ. split.
      { intros (? & ?). auto. }
      intros ([Hin| ->] & s' & Hs' & Hd'); [eauto|].
      rewrite Hget in Hs'. discriminate.
Qed.

(** The unit tests' case: of the indices asked for, 1001 is queued and
    alive, 1000 is current but finished, 999 is in the history and 77 is
    unknown. *)
Example example_model_stop_scripts :
  let r := stop_scripts_begin [77; 1001; 999; 1000]%Z example_model in
  _scripts_being_stopped r.1 = {[1001%Z]} /\
  r.2 = [staged (example_script 1001)].
Proof. by vm_compute. Qed.

(** ** Where a script is put *)

(** [q'] is [q] with [s] put at the location: at the front, at the end,
    or next to the first script that has the index [ref]. *)
Definition placed (s : SI) (location : Location) (ref : Z)
    (q q' : list SI) : Prop :=
  match location with
  | FIRST => q' = s :: q
  | LAST => q' = q ++ [s]
  | BEFORE =>
      exists k r, deque_index ref q = Some (k, r) /\
                  q' = take k q ++ s :: r :: drop (S k) q
  | AFTER =>
      exists k r, deque_index ref q = Some (k, r) /\
                  q' = take k q ++ r :: s :: drop (S k) q
  | OTHER _ => False
  end.

Lemma set_queue_same m : set_queue (queue m) m = m.
Proof. by destruct m. Qed.

Lemma placed_Permutation s loc ref q q' :
  placed s loc ref q q' -> q' ≡ₚ s :: q.
Proof.
  destruct loc; simpl; try done.
  - by intros ->.
  - intros ->. by rewrite Permutation_app_comm.
  - intros (k & r & Hk & ->). apply deque_index_Some in Hk as [Hk _].
    rewrite <- Permutation_middle. constructor.
    by rewrite <- (take_drop_middle q k r) at 3.
  - intros (k & r & Hk & ->). apply deque_index_Some in Hk as [Hk _].
    rewrite <- (take_drop_middle q k r) at 3 by done.
    rewrite (Permutation_middle (take k q) (r :: drop (S k) q) s).
    apply Permutation_app_head, perm_swap.
Qed.

Lemma _insert_script_Ok s loc ref m m' :
  _insert_script s loc ref m = Ok tt m' ->
  exists q', m' = _update_queue true true (set_queue q' m) /\
             placed s loc ref (queue m) q'.
Proof.
  unfold _insert_script, mbind, M_bind, modify, raise, get_queue_index.
  destruct loc; simpl; try discriminate.
  - intros [= <-]. by eexists.
  - intros [= <-]. by eexists.
  - destruct (deque_index ref (queue m)) as [[k r]|] eqn:Hk; [|done].
    simpl. intros [= <-]. pose proof Hk as Hk'.
    apply deque_index_Some in Hk' as [Hlk _].
    rewrite bool_decide_eq_false_2
      by (apply lookup_lt_Some in Hlk; lia).
    eexists. split; [reflexivity|]. exists k, r. split; [done|].
    unfold deque_insert. by rewrite (drop_S _ _ _ Hlk).
  - destruct (deque_index ref (queue m)) as [[k r]|] eqn:Hk; [|done].
    simpl. intros [= <-]. pose proof Hk as Hk'.
    apply deque_index_Some in Hk' as [Hlk _].
    case_bool_decide as Hlen.
    + eexists. split; [reflexivity|]. exists k, r. split; [done|].
      rewrite (drop_ge _ (S k)) by done.
      rewrite <- (take_drop_middle _ _ _ Hlk) at 1.
      rewrite (drop_ge _ (S k)) by done. by rewrite <- app_assoc.
    + eexists. split; [reflexivity|]. exists k, r. split; [done|].
      unfold deque_insert. rewrite (take_S_r _ _ _ Hlk).
      by rewrite <- app_assoc.
Qed.

(** [_insert_script] puts the script at the front, at the end, or right
    before or right after the first queued script with the reference
    index, and then makes one [_update_queue] step; on a disabled or
    paused model the queue afterwards is exactly the queue with the
    script put there.  It raises for a location outside the enum, and
    for [BEFORE] or [AFTER] an index that is not queued, and then leaves
    the model as it was. *)
Theorem _insert_script_spec (s : SI) (location : Location)
    (location_sal_index : Z) (m : t) :
  match _insert_script s location location_sal_index m with
  | Ok _ m' =>
      exists q',
        placed s location location_sal_index (queue m) q' /\
        m' = _update_queue true true (set_queue q' m) /\
        length q' = S (length (queue m)) /\
        (enabled m && running m = false -> queue m' = q')
  | Raise e m' =>
      m' = m /\
      ((e = UnknownLocation /\ exists v, location = OTHER v) \/
       (e = NotQueued /\ is_relative location = true /\
        location_sal_index ∉ queue_indices m))
  end.
Proof.
  destruct (_insert_script s location location_sal_index m)
    as [[] m'|e m'] eqn:H.
  - apply _insert_script_Ok in H as (q' & -> & Hp).
    exists q'. split_and!; [done|done| |].
    + apply placed_Permutation, Permutation_length in Hp. exact Hp.
    + intros Hg. by rewrite _update_queue_queue_paused.
  - pose proof (_insert_script_Raise _ _ _ _ _ _ H) as ->.
    split; [done|]. revert H.
    unfold _insert_script, mbind, M_bind, modify, raise, get_queue_index.
    destruct location; simpl; try discriminate.
    + destruct (deque_index _ (queue m)) as [[? ?]|] eqn:Hk; [done|].
      intros [= <-]. right. split_and!; [done|done|].
      by apply deque_index_None.
    + destruct (deque_index _ (queue m)) as [[? ?]|] eqn:Hk; [done|].
      intros [= <-]. right. split_and!; [done|done|].
      by apply deque_index_None.
    + intros [= <-]. left. eauto.
Qed.

(** [move], case by case. *)
Lemma move_cases (sal_index : Z) (location : Location)
    (location_sal_index : Z) (m : t) :
  match move sal_index location location_sal_index m with
  | Ok _ m' =>
      sal_index ∈ queue_indices m /\
      all_indices m' ⊆+ all_indices m /\
      exists q',
        m' = _update_queue true true (set_queue q' m) /\
        q' ≡ₚ queue m /\
        (location = FIRST ->
         exists s, head q' = Some s /\ ScriptInfo.index s = sal_index) /\
        (location = LAST ->
         exists s, last q' = Some s /\ ScriptInfo.index s = sal_index)
  | Raise e m' => m' = m
  end.
Proof.
  destruct (move sal_index location location_sal_index m)
    as [[] m'|e m'] eqn:H; [|by apply move_Raise in H].
  assert (exists q',
            sal_index ∈ queue_indices m /\
            m' = _update_queue true true (set_queue q' m) /\
            q' ≡ₚ queue m /\
            (location = FIRST ->
             exists s, head q' = Some s /\ ScriptInfo.index s = sal_index) /\
            (location = LAST ->
             exists s, last q' = Some s /\ ScriptInfo.index s = sal_index))
    as (q' & Hin & -> & Hperm & Hfirst & Hlast).
  { revert H. unfold move.
    destruct (is_relative location && _) eqn:Hself.
    - unfold mbind, M_bind, get_queue_index, modify.
      destruct (deque_index sal_index (queue m)) as [[k s]|] eqn:Hk;
        [|done].
      intros [= <-]. exists (queue m). split_and!.
      + apply deque_index_Some in Hk as [Hk <-].
        apply list_elem_of_fmap_2. by eapply list_elem_of_lookup_2.
      + by rewrite set_queue_same.
      + done.
      + intros ->. done.
      + intros ->. done.
    - unfold mbind at 1, M_bind at 1, get. unfold mbind, M_bind.
      pose proof (pop_script_info_cases sal_index m) as Hpop.
      destruct (pop_script_info sal_index m) as [s m1|e1 m1]; [|done].
      destruct Hpop as (k & Hk & Hidx & _ & -> & _ & Hp).
      unfold try_except_reraise.
      destruct (_insert_script s location location_sal_index _)
        as [[] m2|e2 m2] eqn:Hins; [|done].
      intros [= <-].
      apply _insert_script_Ok in Hins as (q' & -> & Hpl).
      exists q'. simpl in Hpl. split_and!.
      + rewrite <- Hidx. apply list_elem_of_fmap_2.
        by eapply list_elem_of_lookup_2.
      + done.
      + etrans; [exact (placed_Permutation _ _ _ _ _ Hpl)|].
        symmetry. exact Hp.
      + intros ->. simpl in Hpl. subst q'. by exists s.
      + intros ->. simpl in Hpl. subst q'. exists s.
        by rewrite last_snoc. }
  split; [exact Hin|]. split; [|by exists q'].
  etrans; [apply _update_queue_indices|].
  unfold all_indices, queue_indices, current_indices, history_indices.
  simpl. apply submseteq_skips_l, submseteq_skips_r.
  apply Permutation_submseteq. unfold indices. by rewrite Hperm.
Qed.

(** [move] reorders and nothing else.  When it returns, the queue that
    the closing [_update_queue] step starts from is a permutation of the
    queue before, with the script at the front for [FIRST] and at the
    end for [LAST]; no index is added to the model.  When it raises, the
    model is as it was. *)
Theorem move_spec (sal_index : Z) (location : Location)
    (location_sal_index : Z) (m : t) :
  match move sal_index location location_sal_index m with
  | Ok _ m' =>
      sal_index ∈ queue_indices m /\
      all_indices m' ⊆+ all_indices m /\
      exists q',
        m' = _update_queue true true (set_queue q' m) /\
        q' ≡ₚ queue m /\
        (location = FIRST ->
         exists s, head q' = Some s /\ ScriptInfo.index s = sal_index) /\
        (location = LAST ->
         exists s, last q' = Some s /\ ScriptInfo.index s = sal_index)
  | Raise e m' => m' = m
  end.
Proof. exact (move_cases sal_index location location_sal_index m). Qed.

(** ** What a step of the scheduler does and does not do *)

(** The effects of the staging loop. *)
Definition staging_event (e : Event) : Prop :=
  match e with
  | SetGroupIdTask _ | NextVisitCanceled _ | ClearGroupIdCommand _ => True
  | _ => False
  end.

Lemma unstage_events m s : Forall staging_event (unstage m s).2.
Proof.
  unfold unstage, clear_group_id.
  destruct (_ || _); simpl; [|constructor].
  destruct (next_visit_canceled_callback m); repeat constructor.
Qed.

Lemma stage_trace m :
  exists evs, trace (stage m) = trace m ++ evs /\ Forall staging_event evs.
Proof.
  unfold stage. destruct (queue m) as [|top rest].
  { exists []. by rewrite app_nil_r. }
  eexists. split; [reflexivity|]. apply Forall_app. split.
  - destruct (ScriptInfo.needs_group_id top); repeat constructor.
  - induction rest as [|s rest IH]; simpl; [constructor|].
    apply Forall_app. split; [apply unstage_events|exact IH].
Qed.

Lemma stage_current m : current_script (stage m) = current_script m.
Proof. unfold stage. by destruct (queue m). Qed.

(** The [while] loop either starts nothing, or starts one script: a
    queued one that is runnable and not being stopped, and only when
    there is no current script. *)
Lemma skim_and_promote_trace q m :
  (current_script (skim_and_promote q m) = current_script m /\
   trace (skim_and_promote q m) = trace m) \/
  (current_script m = None /\
   exists s, s ∈ q /\ ScriptInfo.runnable s = true /\
             (ScriptInfo.index s ∉ _scripts_being_stopped m) /\
             current_script (skim_and_promote q m) = Some s /\
             trace (skim_and_promote q m)
               = trace m ++ [RunCommand (ScriptInfo.index s)]).
Proof.
  revert m. induction q as [|s q IH]; intros m; simpl; [by left|].
  destruct (_ || _).
  - destruct (IH (set_queue q
                    (set_history (history_appendleft s (history m)) m)))
      as [H|(Hc & s' & Hin & H)]; [by left|].
    right. split; [exact Hc|]. exists s'. split; [|exact H].
    by apply list_elem_of_further.
  - destruct (negb _ && _ && _) eqn:Hp; [|by left].
    right. apply andb_true_iff in Hp as [Hp Hstop].
    apply andb_true_iff in Hp as [Hcur Hrun].
    apply negb_true_iff, bool_decide_eq_false in Hcur.
    apply negb_true_iff, bool_decide_eq_false in Hstop.
    split.
    { destruct (current_script m); [|done]. exfalso. eauto. }
    exists s. split_and!; try done. apply list_elem_of_here.
Qed.

(** The indices that the queue callback reports have changed. *)
Definition indices_changed (m m' : t) : bool :=
  bool_decide (current_index m' <> current_index m)
  || bool_decide (queue_indices m' <> queue_indices m)
  || bool_decide (history_indices m' <> history_indices m).

(** The effects of one [_update_queue] call, in order: at most one
    script started, the staging of the queue, at most one call of the
    queue callback. *)
Lemma _update_queue_trace fc pof m :
  let m' := _update_queue fc pof m in
  let m1 := reap_current pof m in
  exists started staging,
    trace m' = trace m ++ started ++ staging
               ++ (if queue_callback m && (fc || indices_changed m m')
                   then [QueueCallback] else []) /\
    Forall staging_event staging /\
    ((started = [] /\ current_script m' = current_script m1) \/
     (exists s, started = [RunCommand (ScriptInfo.index s)] /\
                enabled m = true /\ running m1 = true /\
                current_script m1 = None /\
                current_script m' = Some s /\ s ∈ queue m /\
                ScriptInfo.runnable s = true /\
                ScriptInfo.index s ∉ _scripts_being_stopped m)).
Proof.
  intros m' m1.
  pose proof (_update_queue_fields fc pof m) as (Hq & Hh & Hc & _).
  fold m' in Hq, Hh, Hc.
  assert (trace m1 = trace m /\ queue m1 = queue m /\
          _scripts_being_stopped m1 = _scripts_being_stopped m /\
          queue_callback m1 = queue_callback m /\
          enabled m1 = enabled m) as (Ht1 & Hq1 & Hs1 & Hcb1 & He1).
  { subst m1. unfold reap_current.
    destruct (current_script m) as [c|]; [|done].
    destruct (ScriptInfo.process_done c); [|done].
    by destruct (_ && _). }
  set (m2 := before_callback pof m) in *.
  assert (exists started staging,
            trace m2 = trace m ++ started ++ staging /\
            queue_callback m2 = queue_callback m /\
            Forall staging_event staging /\
            ((started = [] /\ current_script m2 = current_script m1) \/
             (exists s, started = [RunCommand (ScriptInfo.index s)] /\
                enabled m = true /\ running m1 = true /\
                current_script m1 = None /\
                current_script m2 = Some s /\ s ∈ queue m /\
                ScriptInfo.runnable s = true /\
                ScriptInfo.index s ∉ _scripts_being_stopped m)))
    as (started & staging & Ht2 & Hcb2 & Hst & Hstarted).
  { subst m2. unfold before_callback. fold m1.
    destruct (enabled m1 && running m1) eqn:Hg.
    - apply andb_true_iff in Hg as [Hen Hrun].
      destruct (stage_trace (skim_and_promote (queue m1) m1))
        as (staging & Hstage & Hst).
      rewrite stage_current, Hstage.
      assert (queue_callback (stage (skim_and_promote (queue m1) m1))
              = queue_callback m) as Hcb.
      { unfold stage.
        assert (forall q m0, queue_callback (skim_and_promote q m0)
                             = queue_callback m0) as Hskim.
        { induction q as [|s q IH]; intros m0; simpl; [done|].
          destruct (_ || _); [by rewrite IH|]. by destruct (_ && _ && _). }
        destruct (queue (skim_and_promote (queue m1) m1)); simpl;
          by rewrite Hskim. }
      destruct (skim_and_promote_trace (queue m1) m1)
        as [[Hcur Htr]|(Hnone & s & Hin & Hr & Hns & Hcur & Htr)].
      + exists [], staging. rewrite Htr, Ht1. split_and!; auto.
      + exists [RunCommand (ScriptInfo.index s)], staging.
        rewrite Htr, Ht1, <- app_assoc. split_and!; auto.
        right. exists s. rewrite <- He1, <- Hq1, <- Hs1.
        split_and!; auto.
    - exists [], []. rewrite Ht1, Hcb1. simpl. rewrite app_nil_r.
      split_and!; auto. }
  exists started, staging. rewrite Hc. split_and!; [|done|done].
  assert (indices_changed m m'
          = bool_decide (current_index m2 <> current_index m)
            || bool_decide (queue_indices m2 <> queue_indices m)
            || bool_decide (history_indices m2 <> history_indices m))
    as Hch.
  { unfold indices_changed, current_index, queue_indices, history_indices.
    by rewrite Hq, Hh, Hc. }
  rewrite Hch. clear Hch Hq Hh Hc.
  subst m'. unfold _update_queue. fold m1.
  change (if enabled m1 && running m1
          then stage (skim_and_promote (queue m1) m1) else m1) with m2.
  rewrite Hcb2.
  destruct (queue_callback m); simpl.
  - rewrite !orb_assoc.
    destruct (fc || _ || _ || _); simpl.
    + by rewrite Ht2, <- !app_assoc.
    + by rewrite Ht2, app_nil_r.
  - rewrite app_nil_r.
    destruct (_ || _); by rewrite ?Hcb2, Ht2.
Qed.

Definition is_run_command (e : Event) : bool :=
  match e with
  | RunCommand _ => true
  | _ => false
  end.

Lemma staging_not_run staging :
  Forall staging_event staging -> filter is_run_command staging = [].
Proof.
  induction 1 as [|e l He _ IH]; [done|].
  rewrite filter_cons, IH. by destruct e.
Qed.

(** The run commands that one [_update_queue] gives. *)
Lemma _update_queue_run_commands (m : t)
    (force_callback pause_on_failure : bool) :
  let m' := _update_queue force_callback pause_on_failure m in
  exists evs,
    trace m' = trace m ++ evs /\
    length (filter is_run_command evs) <= 1 /\
    (forall i, RunCommand i ∈ evs ->
       enabled m = true /\ running m = true /\
       current_script (reap_current pause_on_failure m) = None /\
       (i ∉ _scripts_being_stopped m) /\
       exists s, current_script m' = Some s /\ ScriptInfo.index s = i /\
                 s ∈ queue m /\ ScriptInfo.runnable s = true).
Proof.
  intros m'.
  destruct (_update_queue_trace force_callback pause_on_failure m)
    as (started & staging & Htr & Hst & Hstarted).
  fold m' in Htr, Hstarted.
  eexists. split; [exact Htr|].
  assert (forall i, RunCommand i ∈ started ++ staging
                      ++ (if queue_callback m
                             && (force_callback || indices_changed m m')
                          then [QueueCallback] else []) ->
                    RunCommand i ∈ started) as Hin.
  { intros i. rewrite !elem_of_app. intros [H|[H|H]]; [done| |].
    - exfalso. apply (proj1 (Forall_forall _ _) Hst) in H. exact H.
    - exfalso. destruct (_ && _);
        [by apply list_elem_of_singleton in H|by apply not_elem_of_nil in H]. }
  split.
  - rewrite !filter_app, (staging_not_run _ Hst).
    assert (filter is_run_command
              (if queue_callback m
                  && (force_callback || indices_changed m m')
               then [QueueCallback] else []) = []) as ->
      by by destruct (_ && _).
    rewrite !app_nil_r.
    destruct Hstarted as [[-> _]|(s & -> & _)]; simpl; lia.
  - intros i Hi. apply Hin in Hi.
    destruct Hstarted as [[-> _]|(s & -> & Hen & Hrun & Hnone & Hcur
                                    & Hq & Hr & Hns)].
    { by apply not_elem_of_nil in Hi. }
    apply list_elem_of_singleton in Hi. injection Hi as ->.
    split_and!; try done.
    + revert Hrun. unfold reap_current, running.
      destruct (current_script m) as [c|]; [|done].
      destruct (ScriptInfo.process_done c); [|done].
      destruct (ScriptInfo.failed c && _); simpl; [discriminate|done].
    + by exists s.
Qed.

(** One call of [_update_queue] starts at most one script.  It starts
    one only on an enabled and running model that has no current script
    once a finished one has been reaped; the script started was on the
    queue, is runnable, is not being stopped, and is the current script
    afterwards. *)
Theorem _update_queue_starts_at_most_one (m : t)
    (force_callback pause_on_failure : bool) :
  let m' := _update_queue force_callback pause_on_failure m in
  exists evs,
    trace m' = trace m ++ evs /\
    length (filter is_run_command evs) <= 1 /\
    (forall i, RunCommand i ∈ evs ->
       enabled m = true /\ running m = true /\
       current_script (reap_current pause_on_failure m) = None /\
       (i ∉ _scripts_being_stopped m) /\
       exists s, current_script m' = Some s /\ ScriptInfo.index s = i /\
                 s ∈ queue m /\ ScriptInfo.runnable s = true).
Proof.
  exact (_update_queue_run_commands m force_callback pause_on_failure).
Qed.

(** A current script whose process is not done is left in place by
    [_update_queue], and nothing is started in its stead, whatever is
    waiting on the queue. *)
Theorem _update_queue_keeps_busy_current (m : t) (c : SI)
    (force_callback pause_on_failure : bool) :
  current_script m = Some c ->
  ScriptInfo.process_done c = false ->
  let m' := _update_queue force_callback pause_on_failure m in
  current_script m' = Some c /\
  running m' = running m /\
  exists evs, trace m' = trace m ++ evs /\
              filter is_run_command evs = [].
Proof.
  intros Hc Hd m'.
  assert (reap_current pause_on_failure m = m) as Hreap.
  { unfold reap_current. by rewrite Hc, Hd. }
  destruct (_update_queue_trace force_callback pause_on_failure m)
    as (started & staging & Htr & Hst & Hstarted).
  fold m' in Htr, Hstarted. rewrite Hreap in Hstarted.
  destruct Hstarted as [[-> Hcur]|(s & _ & _ & _ & Hnone & _)];
    [|congruence].
  split_and!.
  - congruence.
  - destruct (_update_queue_fields force_callback pause_on_failure m)
      as (_ & _ & _ & Hrun & _).
    fold m' in Hrun. unfold running. rewrite Hrun.
    unfold before_callback. rewrite Hreap.
    destruct (enabled m && running m); [|done].
    rewrite (proj1 (stage_flags _)).
    by rewrite (proj1 (skim_and_promote_flags _ _)).
  - eexists. split; [exact Htr|].
    rewrite !filter_app, (staging_not_run _ Hst). simpl.
    by destruct (_ && _).
Qed.

(** The queue callback is called at most once by [_update_queue], after
    everything else: when there is a callback and either the call was
    forced or the current index, the queue indices or the history
    indices have changed.  Without a callback nothing is called. *)
Theorem _update_queue_callback (m : t)
    (force_callback pause_on_failure : bool) :
  let m' := _update_queue force_callback pause_on_failure m in
  exists evs,
    trace m' = trace m ++ evs
               ++ (if queue_callback m
                      && (force_callback || indices_changed m m')
                   then [QueueCallback] else []) /\
    (QueueCallback ∉ evs).
Proof.
  intros m'.
  destruct (_update_queue_trace force_callback pause_on_failure m)
    as (started & staging & Htr & Hst & Hstarted).
  fold m' in Htr, Hstarted.
  exists (started ++ staging). split; [by rewrite <- app_assoc|].
  rewrite elem_of_app. intros [H|H].
  - destruct Hstarted as [[-> _]|(s & -> & _)];
      [by apply not_elem_of_nil in H|by apply list_elem_of_singleton in H].
  - apply (proj1 (Forall_forall _ _) Hst) in H. exact H.
Qed.

(** ** Nothing is lost while the history has room *)

Lemma reap_current_conserves pof m :
  length (all_indices m) <= MAX_HISTORY ->
  all_indices (reap_current pof m) ≡ₚ all_indices m /\
  length (queue (reap_current pof m))
  + length (history (reap_current pof m)) <= MAX_HISTORY.
Proof.
  unfold reap_current, all_indices, current_indices, queue_indices,
    history_indices, indices.
  rewrite !length_app, !length_fmap.
  destruct (current_script m) as [s|] eqn:Hc; simpl;
    [|rewrite Hc; simpl; split; [done|lia]].
  intros Hlen.
  destruct (ScriptInfo.process_done s);
    [|rewrite Hc; simpl; split; [done|lia]].
  destruct (ScriptInfo.failed s && _);
    [simpl; rewrite Hc; simpl; split; [done|lia]|].
  rewrite history_appendleft_room by lia. simpl.
  split; [|lia]. by rewrite <- Permutation_middle.
Qed.

Lemma skim_and_promote_conserves q m :
  queue m = q ->
  length q + length (history m) <= MAX_HISTORY ->
  all_indices (skim_and_promote q m) ≡ₚ all_indices m.
Proof.
  revert m. induction q as [|s q IH]; intros m Hq Hlen; simpl; [done|].
  destruct (ScriptInfo.process_done s || ScriptInfo.terminated s).
  - simpl in Hlen. rewrite IH; [|done|];
      rewrite history_appendleft_room by lia.
    + unfold all_indices, queue_indices, history_indices, current_indices.
      simpl. rewrite Hq. simpl. apply Permutation_app_head.
      by rewrite <- Permutation_middle.
    + simpl. lia.
  - destruct (negb _ && _ && _) eqn:Hp; [|done].
    unfold all_indices, queue_indices, history_indices, current_indices.
    simpl. rewrite Hq.
    destruct (current_script m); [|done].
    rewrite bool_decide_eq_true_2 in Hp by eauto. done.
Qed.

(** As long as the scripts of the model fit in the history, a step of
    the scheduler loses none: the indices held after [_update_queue] are
    those held before, moved between the containers. *)
Theorem _update_queue_conserves (m : t)
    (force_callback pause_on_failure : bool) :
  length (all_indices m) <= MAX_HISTORY ->
  all_indices (_update_queue force_callback pause_on_failure m)
    ≡ₚ all_indices m.
Proof.
  intros Hlen.
  destruct (reap_current_conserves pause_on_failure m Hlen) as [H1 Hl1].
  assert (all_indices (_update_queue force_callback pause_on_failure m)
          = all_indices (before_callback pause_on_failure m)) as ->.
  { destruct (_update_queue_fields force_callback pause_on_failure m)
      as (Hq & Hh & Hc & _).
    unfold all_indices, current_indices, queue_indices, history_indices.
    by rewrite Hq, Hh, Hc. }
  unfold before_callback. destruct (_ && _); [|exact H1].
  rewrite stage_all_indices, <- H1.
  by apply skim_and_promote_conserves.
Qed.

Lemma _update_queue_conserves_witness :
  length (all_indices example_model) <= MAX_HISTORY /\
  all_indices (_update_queue true true example_model)
    ≡ₚ all_indices example_model.
Proof.
  split.
  - vm_compute. lia.
  - apply (_update_queue_conserves example_model true true).
    vm_compute. lia.
Defined.

Lemma _update_queue_keeps_busy_current_witness :
  let m := set_current_script (Some (staged (example_script 1000)))
             example_model in
  let m' := _update_queue true true m in
  current_script m' = Some (staged (example_script 1000)) /\
  running m' = running m /\
  exists evs, trace m' = trace m ++ evs /\
              filter is_run_command evs = [].
Proof.
  apply (_update_queue_keeps_busy_current
           (set_current_script (Some (staged (example_script 1000)))
              example_model)
           (staged (example_script 1000)) true true); reflexivity.
Defined.

(** ** Unique membership across the methods *)

Lemma all_indices_set_queue q m :
  all_indices (set_queue q m)
  = current_indices m ++ indices q ++ history_indices m.
Proof. reflexivity. Qed.

Lemma _insert_script_indices s loc ref m :
  all_indices (state_of (_insert_script s loc ref m))
    ⊆+ ScriptInfo.index s :: all_indices m.
Proof.
  destruct (_insert_script s loc ref m) as [[] m'|e m'] eqn:H; simpl.
  - apply _insert_script_Ok in H as (q' & -> & Hp).
    etrans; [apply _update_queue_indices|].
    rewrite all_indices_set_queue. apply Permutation_submseteq.
    unfold indices. rewrite (placed_Permutation _ _ _ _ _ Hp). simpl.
    unfold all_indices, queue_indices, indices.
    by rewrite <- Permutation_middle.
  - apply _insert_script_Raise in H as ->. by apply submseteq_cons.
Qed.

Lemma add_indices fs loaded s loc ref m :
  all_indices (state_of (add fs loaded s loc ref m))
    ⊆+ ScriptInfo.index s :: all_indices m.
Proof.
  unfold add. unfold mbind at 1, M_bind at 1.
  pose proof (preserves_make_full_path (fun m' => m' = m) fs
                (ScriptInfo.is_standard s) (ScriptInfo.path s) m eq_refl)
    as Hm.
  destruct (make_full_path fs _ _ m) as [p m1|e m1]; simpl in Hm; subst m1;
    [|by apply submseteq_cons].
  unfold mbind at 1, M_bind at 1.
  pose proof (_insert_script_indices s loc ref m) as Hi.
  destruct (_insert_script s loc ref m) as [[] m2|e m2]; simpl in Hi;
    [|exact Hi].
  unfold mbind, M_bind, modify. by destruct loaded.
Qed.

Lemma requeue_indices fs loaded i seq loc ref m :
  all_indices (state_of (requeue fs loaded i seq loc ref m))
    ⊆+ index_generator_next (min_sal_index m) (max_sal_index m)
         (_index_generator m) :: all_indices m.
Proof.
  unfold requeue. unfold mbind at 1, M_bind at 1.
  pose proof (get_script_info_cases i true m) as Hg.
  destruct (get_script_info i true m) as [old m1|e m1];
    [destruct Hg as (-> & _)|destruct Hg as (-> & _); by apply submseteq_cons].
  unfold mbind at 1, M_bind at 1, next_sal_index.
  unfold mbind at 1, M_bind at 1.
  match goal with |- context [add fs loaded ?s' loc ref ?m1] =>
    pose proof (add_indices fs loaded s' loc ref m1) as Ha;
    destruct (add fs loaded s' loc ref m1) as [[] m2|e m2]
  end; exact Ha.
Qed.

(** Unique membership is kept by every method that only moves scripts,
    and by the methods that bring in a script when its index is new: for
    [requeue] that is the case as long as the index generator has not
    started again from [min_sal_index]. *)
Theorem unique_membership_kept (m : t) :
  unique_membership m ->
  (forall i loc ref, unique_membership (state_of (move i loc ref m))) /\
  (forall i, unique_membership (state_of (pop_script_info i m))) /\
  (forall b, unique_membership (enabled_setter b m)) /\
  (forall b, unique_membership (running_setter b m)) /\
  (forall s, unique_membership (_script_info_callback s m)) /\
  (forall s loc ref,
     ScriptInfo.index s ∉ all_indices m ->
     unique_membership (state_of (_insert_script s loc ref m))) /\
  (forall fs loaded s loc ref,
     ScriptInfo.index s ∉ all_indices m ->
     unique_membership (state_of (add fs loaded s loc ref m))) /\
  (forall fs loaded i seq loc ref,
     (forall j, j ∈ all_indices m -> (j <= _index_generator m)%Z) ->
     (_index_generator m < max_sal_index m)%Z ->
     unique_membership (state_of (requeue fs loaded i seq loc ref m))).
Proof.
  intros Hu.
  assert (forall m', all_indices m' ⊆+ all_indices m ->
                     unique_membership m') as Hsub.
  { intros m' H. by eapply submseteq_NoDup. }
  assert (forall fc pof, unique_membership (_update_queue fc pof m)) as Hupd.
  { intros. apply Hsub, _update_queue_indices. }
  assert (forall m' i, i ∉ all_indices m ->
                       all_indices m' ⊆+ i :: all_indices m ->
                       unique_membership m') as Hnew.
  { intros m' i Hi H. eapply submseteq_NoDup; [exact H|].
    by apply NoDup_cons. }
  refine (conj _ (conj _ (conj _ (conj _ (conj _ (conj _ (conj _ _))))))).
  - intros i loc ref. pose proof (move_cases i loc ref m) as H.
    destruct (move i loc ref m) as [[] m'|e m']; simpl.
    + destruct H as (_ & H & _). by apply Hsub.
    + by subst m'.
  - intros i. pose proof (pop_script_info_cases i m) as H.
    destruct (pop_script_info i m) as [s m'|e m']; simpl.
    + destruct H as (k & _ & _ & _ & -> & _). apply Hsub.
      rewrite all_indices_set_queue. unfold all_indices.
      apply submseteq_skips_l, submseteq_skips_r.
      unfold queue_indices, indices. rewrite list_fmap_delete.
      apply sublist_submseteq, sublist_delete.
    + by destruct H as (_ & -> & _).
  - intros b. unfold enabled_setter. case_bool_decide; [|done].
    apply Hsub. exact (_update_queue_indices _ _ (set__enabled b m)).
  - intros b. unfold running_setter. case_bool_decide; [|done].
    apply Hsub. exact (_update_queue_indices _ _ (set__running b m)).
  - intros s. unfold _script_info_callback.
    destruct (_ || _); [by destruct (script_callback m)|].
    destruct (script_callback m); simpl;
      (destruct (queue m); [done|]);
      (destruct (_ && _); [|done]);
      apply Hsub.
    + exact (_update_queue_indices _ _
               (emit [ScriptCallback (ScriptInfo.index s)] m)).
    + apply _update_queue_indices.
  - intros s loc ref Hi. eapply Hnew; [exact Hi|].
    apply _insert_script_indices.
  - intros fs loaded s loc ref Hi. eapply Hnew; [exact Hi|].
    apply add_indices.
  - intros fs loaded i seq loc ref Hused Hlt.
    eapply Hnew; [|apply requeue_indices].
    by apply index_generator_next_fresh.
Qed.

Lemma unique_membership_kept_witness :
  unique_membership example_model /\
  (forall i loc ref,
     unique_membership (state_of (move i loc ref example_model))) /\
  (forall i, unique_membership (state_of (pop_script_info i example_model)))
  /\
  (forall b, unique_membership (enabled_setter b example_model)) /\
  (forall b, unique_membership (running_setter b example_model)) /\
  (forall s, unique_membership (_script_info_callback s example_model)) /\
  (forall s loc ref,
     ScriptInfo.index s ∉ all_indices example_model ->
     unique_membership (state_of (_insert_script s loc ref example_model)))
  /\
  (forall fs loaded s loc ref,
     ScriptInfo.index s ∉ all_indices example_model ->
     unique_membership (state_of (add fs loaded s loc ref example_model)))
  /\
  (forall fs loaded i seq loc ref,
     (forall j, j ∈ all_indices example_model ->
                (j <= _index_generator example_model)%Z) ->
     (_index_generator example_model < max_sal_index example_model)%Z ->
     unique_membership
       (state_of (requeue fs loaded i seq loc ref example_model))).
Proof.
  split.
  - by_evaluation.
  - apply (unique_membership_kept example_model). by_evaluation.
Defined.

(** ** Where finished scripts go *)

(** A script in the history moves one place down with each script put
    in front of it, and leaves the history from the last place only. *)
Lemma history_appendleft_lookup (s x : SI) (h : list SI) (j : nat) :
  h !! j = Some x -> S j < MAX_HISTORY ->
  history_appendleft s h !! S j = Some x.
Proof.
  intros Hx Hj. unfold history_appendleft.
  by rewrite lookup_take_lt by exact Hj.
Qed.

Lemma skim_and_promote_keeps q m (j : nat) (x : SI) :
  history m !! j = Some x -> j + length q < MAX_HISTORY ->
  x ∈ history (skim_and_promote q m).
Proof.
  revert m j. induction q as [|s q IH]; intros m j Hx Hlen.
  - by eapply list_elem_of_lookup_2.
  - cbn [skim_and_promote]. cbn [length] in Hlen. destruct (_ || _).
    + apply (IH _ (S j)); [|lia].
      change (history_appendleft s (history m) !! S j = Some x).
      apply history_appendleft_lookup; [exact Hx|lia].
    + destruct (_ && _ && _); by eapply list_elem_of_lookup_2.
Qed.

Lemma _update_queue_keeps fc pof m (j : nat) (x : SI) :
  history m !! j = Some x -> S j + length (queue m) < MAX_HISTORY ->
  x ∈ history (_update_queue fc pof m).
Proof.
  intros Hx Hlen.
  destruct (_update_queue_fields fc pof m) as (_ & -> & _).
  unfold before_callback.
  destruct (reap_current_queue_trace pof m) as (Hq & _).
  assert (exists j', j' <= S j /\ history (reap_current pof m) !! j' = Some x)
    as (j' & Hj' & Hx').
  { unfold reap_current. destruct (current_script m) as [c|]; [|by eauto].
    destruct (ScriptInfo.process_done c); [|by eauto].
    destruct (ScriptInfo.failed c && _); [by eauto|].
    exists (S j). split; [done|].
    change (history_appendleft c (history m) !! S j = Some x).
    apply history_appendleft_lookup; [exact Hx|lia]. }
  destruct (_ && _); [|by eapply list_elem_of_lookup_2].
  rewrite stage_history.
  apply (skim_and_promote_keeps _ _ j'); [exact Hx'|]. rewrite Hq. lia.
Qed.

(** Resuming a paused queue moves on a current script whose process is
    done, failed or not: with [running] set to true again the script is
    no longer the current script.  It has been put at the front of the
    history, where each finished script skimmed off the queue in the
    same step moves it one place down: with fewer than [MAX_HISTORY]
    scripts on the queue it is in the history afterwards. *)
Theorem running_setter_resumes (m : t) (c : SI) :
  current_script m = Some c ->
  ScriptInfo.process_done c = true ->
  running m = false ->
  let m' := running_setter true m in
  running m' = true /\
  current_script m' <> Some c /\
  (length (queue m) < MAX_HISTORY -> c ∈ history m').
Proof.
  intros Hc Hd Hr m'. split_and!.
  - subst m'. unfold running_setter, running in *. simpl. rewrite Hr.
    simpl.
    destruct (_update_queue_fields true false (set__running true m))
      as (_ & _ & _ & -> & _).
    unfold before_callback, reap_current. simpl. rewrite Hc, Hd.
    rewrite andb_false_r. simpl.
    destruct (_enabled m); simpl; [|done].
    rewrite (proj1 (stage_flags _)).
    by rewrite (proj1 (skim_and_promote_flags _ _)).
  - by apply resume_reaps_failed.
  - intros Hlen. subst m'. unfold running_setter, running in *. simpl.
    rewrite Hr. simpl.
    destruct (_update_queue_fields true false (set__running true m))
      as (_ & -> & _).
    unfold before_callback, reap_current. simpl. rewrite Hc, Hd.
    rewrite andb_false_r.
    assert (history_appendleft c (history m) !! 0 = Some c) as Hhead
      by done.
    match goal with |- context [if ?b then _ else _] => destruct b end;
      [|by eapply list_elem_of_lookup_2].
    rewrite stage_history.
    apply (skim_and_promote_keeps _ _ 0); [exact Hhead|exact Hlen].
Qed.

Lemma running_setter_resumes_witness :
  let m := _update_queue true true failed_model in
  let c := crashed (example_script 1000) in
  current_script m = Some c /\
  ScriptInfo.process_done c = true /\
  running m = false /\
  length (queue m) < MAX_HISTORY /\
  running (running_setter true m) = true /\
  current_script (running_setter true m) <> Some c /\
  c ∈ history (running_setter true m).
Proof.
  intros m c.
  split; [reflexivity|]. split; [reflexivity|]. split; [reflexivity|].
  split; [vm_compute; lia|].
  destruct (running_setter_resumes (_update_queue true true failed_model)
              (crashed (example_script 1000)))
    as (Hrun & Hcur & Hhist); [reflexivity|reflexivity|reflexivity|].
  split; [exact Hrun|]. split; [exact Hcur|].
  apply Hhist. vm_compute; lia.
Defined.

(** [_remove_script] always returns.  For an index that is neither the
    current script's nor on the queue it does nothing.  For an index on
    the queue of a model with unique membership, the script found is
    taken off the queue and put at the front of the history; the
    scripts that the closing [_update_queue] moves there push it down,
    and with fewer than [MAX_HISTORY] scripts on the queue it is in the
    history afterwards. *)
Theorem _remove_script_spec (sal_index : Z) (m : t) :
  exists m',
    _remove_script sal_index m = Ok tt m' /\
    ((sal_index ∉ current_indices m) -> (sal_index ∉ queue_indices m) ->
     m' = m) /\
    (unique_membership m -> sal_index ∈ queue_indices m ->
     (sal_index ∉ queue_indices m') /\
     (length (queue m) < MAX_HISTORY -> sal_index ∈ history_indices m')).
Proof.
  unfold _remove_script.
  destruct (is_current sal_index m) eqn:Hcur.
  - destruct (after_removal_indices sal_index m) as (m' & Hm' & _).
    exists m'. split; [exact Hm'|]. split.
    + intros Hnc _. exfalso. apply Hnc. revert Hcur.
      unfold is_current, current_indices.
      destruct (current_script m) as [c|]; [|done].
      intros Heq%bool_decide_eq_true. subst sal_index.
      apply list_elem_of_here.
    + intros Hu Hq. exfalso. revert Hcur Hu.
      unfold is_current, unique_membership, all_indices, current_indices.
      destruct (current_script m) as [c|]; [|done].
      intros Heq%bool_decide_eq_true Hnd. subst sal_index.
      apply NoDup_app in Hnd as (_ & Hnd & _).
      apply (Hnd (ScriptInfo.index c)); [apply list_elem_of_here|].
      apply elem_of_app. by left.
  - case_bool_decide as Hin; [|exists m; by split_and!].
    pose proof (pop_script_info_cases sal_index m) as Hpop.
    unfold mbind at 1, M_bind at 1.
    destruct (pop_script_info sal_index m) as [s m1|e m1];
      [|by destruct Hpop as (_ & _ & ?)].
    destruct Hpop as (k & Hk & Hidx & _ & -> & _ & _).
    unfold mbind, M_bind, modify.
    set (m2 := set_history _ _).
    assert (exists m', after_removal sal_index m2 = Ok tt m' /\
              (m' = set__scripts_being_stopped (_scripts_being_stopped m')
                      m2 \/
               exists m3, queue m3 = queue m2 /\ history m3 = history m2 /\
                          m' = _update_queue true true m3))
      as (m' & -> & Hm').
    { unfold after_removal. repeat case_bool_decide; eexists;
        (split; [reflexivity|]); try (by left); right; eexists;
        (split; [|split; [|reflexivity]]); reflexivity. }
    exists m'. split; [done|]. split; [done|].
    intros Hu _.
    assert (sal_index ∉ queue_indices m2) as Hnq.
    { subst m2. unfold queue_indices, indices. simpl.
      rewrite list_fmap_delete. revert Hu.
      unfold unique_membership, all_indices.
      intros Hnd. apply NoDup_app in Hnd as (_ & _ & Hnd).
      apply NoDup_app in Hnd as (Hnd & _).
      unfold queue_indices, indices in Hnd.
      assert ((ScriptInfo.index <$> queue m) !! k = Some sal_index) as Hk'.
      { by rewrite list_lookup_fmap, Hk, <- Hidx. }
      rewrite <- (take_drop_middle _ _ _ Hk') in Hnd.
      rewrite delete_take_drop.
      apply NoDup_app in Hnd as (_ & Hdisj & Hnd).
      apply NoDup_cons in Hnd as [Hnd _].
      intros [H|H]%elem_of_app; [|done].
      apply (Hdisj _ H). apply list_elem_of_here. }
    assert (history m2 !! 0 = Some s) as Hhead by done.
    assert (S (length (queue m2)) = length (queue m)) as Hlen2.
    { subst m2. simpl. rewrite length_delete by eauto.
      apply lookup_lt_Some in Hk. lia. }
    assert (forall (m0 : t) (x : SI),
              x ∈ history m0 -> ScriptInfo.index x = sal_index ->
              sal_index ∈ history_indices m0) as Hfound.
    { intros m0 x Hx <-. unfold history_indices, indices.
      by apply list_elem_of_fmap_2. }
    destruct Hm' as [->|(m3 & Hq3 & Hh3 & ->)].
    + split; [done|]. intros _. apply (Hfound _ s); [|exact Hidx].
      by eapply list_elem_of_lookup_2.
    + split.
      * intros H. apply Hnq.
        destruct (_update_queue_queue_indices true true m3) as [pre Hpre].
        assert (queue_indices m2 = queue_indices m3) as ->
          by (unfold queue_indices; by rewrite Hq3).
        rewrite Hpre. apply elem_of_app. by right.
      * intros Hlen. apply (Hfound _ s); [|exact Hidx].
        apply (_update_queue_keeps true true m3 0);
          [by rewrite Hh3|rewrite Hq3; lia].
Qed.

Lemma _remove_script_spec_witness :
  exists m',
    _remove_script 1002 example_model = Ok tt m' /\
    (1002%Z ∉ queue_indices m') /\
    (1002%Z ∈ history_indices m').
Proof.
  destruct (_remove_script_spec 1002 example_model) as (m' & H & _ & Hq).
  exists m'. split; [exact H|].
  destruct Hq as [Hnq Hh]; [by_evaluation|by_evaluation|].
  split; [exact Hnq|]. apply Hh. vm_compute; lia.
Defined.

Example example_model_remove_script :
  exists m', _remove_script 1002 example_model = Ok tt m' /\
    current_index m' = 1001%Z /\ queue_indices m' = [1003%Z] /\
    history_indices m' = [1000; 1002; 999]%Z.
Proof. eexists. by vm_compute. Qed.

(** ** Pausing, disabling and the two flags *)

Lemma no_run_command evs :
  (forall i, RunCommand i ∉ evs) -> filter is_run_command evs = [].
Proof.
  induction evs as [|e evs IH]; intros H; [done|].
  rewrite filter_cons. case_decide as Hrun.
  - exfalso. destruct e; try done. apply (H i). apply list_elem_of_here.
  - apply IH. intros i Hi. apply (H i). by apply list_elem_of_further.
Qed.

Lemma set__enabled_same m : set__enabled (_enabled m) m = m.
Proof. by destruct m. Qed.

Lemma set__running_same m : set__running (_running m) m = m.
Proof. by destruct m. Qed.

(** Setting [enabled] or [running] to the value it has does nothing at
    all.  Setting either to false never changes the queue and never
    starts a script. *)
Theorem setters_spec (m : t) :
  enabled_setter (enabled m) m = m /\
  running_setter (running m) m = m /\
  queue (enabled_setter false m) = queue m /\
  queue (running_setter false m) = queue m /\
  (exists evs, trace (enabled_setter false m) = trace m ++ evs /\
               filter is_run_command evs = []) /\
  (exists evs, trace (running_setter false m) = trace m ++ evs /\
               filter is_run_command evs = []).
Proof.
  assert (forall m0 fc pof,
            enabled m0 && running m0 = false ->
            exists evs, trace (_update_queue fc pof m0) = trace m0 ++ evs /\
                        filter is_run_command evs = []) as Hquiet.
  { intros m0 fc pof Hg.
    destruct (_update_queue_run_commands m0 fc pof)
      as (evs & Htr & _ & Hrun).
    exists evs. split; [exact Htr|]. apply no_run_command.
    intros i Hi. destruct (Hrun i Hi) as (He & Hr & _).
    by rewrite He, Hr in Hg. }
  split_and!.
  - unfold enabled_setter, enabled. simpl.
    rewrite bool_decide_eq_false_2 by auto. apply set__enabled_same.
  - unfold running_setter, running. simpl.
    rewrite bool_decide_eq_false_2 by auto. apply set__running_same.
  - unfold enabled_setter. case_bool_decide; [|done].
    by rewrite _update_queue_queue_paused.
  - unfold running_setter. case_bool_decide; [|done].
    rewrite _update_queue_queue_paused; [done|].
    unfold enabled, running. simpl. apply andb_false_r.
  - unfold enabled_setter. case_bool_decide.
    + apply (Hquiet (set__enabled false m)). done.
    + exists []. by rewrite app_nil_r.
  - unfold running_setter. case_bool_decide.
    + apply (Hquiet (set__running false m)).
      unfold enabled, running. simpl. apply andb_false_r.
    + exists []. by rewrite app_nil_r.
Qed.

(** ** Paths without [".."] *)

Lemma canonical_foldl acc full :
  ".." ∉ full ->
  foldl (fun acc c => if bool_decide (c = "..") then removelast acc
                      else acc ++ [c]) acc full = acc ++ full.
Proof.
  revert acc. induction full as [|c full IH]; intros acc Hnin; simpl.
  { by rewrite app_nil_r. }
  rewrite bool_decide_eq_false_2.
  - rewrite IH, <- app_assoc; [done|].
    intros H. apply Hnin. by apply list_elem_of_further.
  - intros ->. apply Hnin. apply list_elem_of_here.
Qed.

Lemma walk_without_dotdot fs cur rest p :
  ".." ∉ rest -> Paths.walk fs cur rest = Some p -> p = cur ++ rest.
Proof.
  revert cur. induction rest as [|c rest IH]; intros cur Hnin; simpl.
  { intros [= <-]. by rewrite app_nil_r. }
  destruct (fs cur) as [[|x]|]; try done.
  rewrite bool_decide_eq_false_2.
  - intros H. apply IH in H.
    + by rewrite H, <- app_assoc.
    + intros Hin. apply Hnin. by apply list_elem_of_further.
  - intros ->. apply Hnin. apply list_elem_of_here.
Qed.

(** For a path that has no [".."] part, under a root that has none,
    what [make_full_path] returns is what it promises: a canonical path
    strictly below the root, at which the file system has an executable
    regular file whose name starts with neither ["."] nor ["_"]; and the
    model is untouched. *)
Theorem make_full_path_without_dotdot (fs : Paths.FileSystem)
    (is_standard : bool) (path : string) (m m' : t) (full : list string) :
  make_full_path fs is_standard path m = Ok full m' ->
  let root := if is_standard then standardpath m else externalpath m in
  ".." ∉ root ->
  ".." ∉ Paths.parts path ->
  m' = m /\
  Paths.canonical full = full /\
  (exists rest, rest <> [] /\ full = root ++ rest) /\
  Paths.in_parents root (Paths.canonical full) = true /\
  fs full = Some (Paths.File true) /\
  Paths.hidden_or_private (Paths.name full) = false.
Proof.
  intros H root Hroot Hpath.
  apply make_full_path_lexical in H as (-> & Hfull & Hpar & Hfile & Hhid
                                        & Hacc).
  fold root in Hfull, Hpar.
  assert (".." ∉ full) as Hnd.
  { rewrite Hfull. unfold Paths.joinpath.
    destruct (Paths.is_absolute path); [done|].
    intros [?|?]%elem_of_app; auto. }
  assert (Paths.canonical full = full) as Hcan.
  { unfold Paths.canonical. by rewrite canonical_foldl. }
  split_and!; try done.
  - unfold Paths.in_parents in Hpar.
    apply andb_true_iff in Hpar as [Hpre Hlen].
    apply bool_decide_eq_true in Hpre. apply bool_decide_eq_true in Hlen.
    exists (drop (length root) full). split.
    + intros Hnil. apply (f_equal length) in Hnil.
      rewrite length_drop in Hnil. simpl in Hnil. lia.
    + rewrite <- Hpre at 1. by rewrite take_drop.
  - by rewrite Hcan.
  - unfold Paths.is_file, Paths.access_x, Paths.stat in *.
    destruct (Paths.walk fs [] full) as [p|] eqn:Hw; [|done].
    apply walk_without_dotdot in Hw as ->; [|done]. simpl in *.
    destruct (fs full) as [[|[|]]|]; done.
Qed.

Lemma make_full_path_without_dotdot_witness :
  make_full_path example_fs false "script2" example_init
    = Ok ["scripts"; "external"; "script2"] example_init /\
  (".." ∉ externalpath example_init) /\
  (".." ∉ Paths.parts "script2") /\
  Paths.canonical ["scripts"; "external"; "script2"]
    = ["scripts"; "external"; "script2"] /\
  (exists rest, rest <> [] /\
     ["scripts"; "external"; "script2"] = externalpath example_init ++ rest)
  /\
  Paths.in_parents (externalpath example_init)
    (Paths.canonical ["scripts"; "external"; "script2"]) = true /\
  example_fs ["scripts"; "external"; "script2"] = Some (Paths.File true) /\
  Paths.hidden_or_private (Paths.name ["scripts"; "external"; "script2"])
    = false.
Proof.
  split; [by vm_compute|]. split; [by_evaluation|]. split; [by_evaluation|].
  apply (make_full_path_without_dotdot example_fs false "script2"
           example_init example_init ["scripts"; "external"; "script2"]).
  - by vm_compute.
  - by_evaluation.
  - by_evaluation.
Defined.

(** The ways in which a path is turned down, in the order of the
    checks. *)
Example example_fs_rejections :
  make_full_path example_fs true "" example_init
    = Raise NotUnderRoot example_init /\
  make_full_path example_fs true "/usr/bin/tool" example_init
    = Raise NotUnderRoot example_init /\
  make_full_path example_fs true "missing" example_init
    = Raise NotFound example_init /\
  make_full_path example_fs true "../standard" example_init
    = Raise NotFound example_init /\
  make_full_path example_fs true "script2" example_init
    = Raise NotFound example_init.
Proof. by vm_compute. Qed.

End QueueModel.

(** ** BaseScript *)

Module BaseScript.

(** [lsst.ts.idl.enums.Script.ScriptState]. *)
Inductive ScriptState : Type :=
  | UNCONFIGURED
  | CONFIGURED
  | RUNNING
  | PAUSED
  | ENDING
  | STOPPING
  | FAILING
  | DONE
  | STOPPED
  | FAILED.

#[global] Instance ScriptState_eq_dec : EqDecision ScriptState.
Proof. solve_decision. Defined.

(** [evt_state.data]. *)
Record StateData : Type := mkState {
  state : ScriptState;
  lastCheckpoint : string;
  reason : string
}.

#[global] Instance StateData_eq_dec : EqDecision StateData.
Proof. solve_decision. Defined.

(** [evt_checkpoints.data]: the two regular expressions. *)
Record Checkpoints : Type := mkCheckpoints {
  pause : string;
  stop : string
}.

(** An [asyncio] task or future that exists. *)
Inductive Awaitable : Type :=
  | Pending
  | Finished.

(** The attributes of a [BaseScript] that [checkpoint] reads or writes;
    [published] lists the [state] events put on the bus, oldest first. *)
Record t : Type := mk {
  evt_state : StateData;
  checkpoints : Checkpoints;
  _run_task : option Awaitable;
  _pause_future : option Awaitable;
  _is_exiting : bool;
  published : list StateData
}.

(** [evt_state.set_put(state=..., reason=..., lastCheckpoint=...,
    force_output=...)]: an argument that is [None] leaves its field as it
    is; the event is put when a field changed or when forced. *)
Definition set_put (state' : option ScriptState) (reason' : option string)
    (lastCheckpoint' : option string) (force_output : bool) (b : t) : t :=
  let old := evt_state b in
  let new := mkState (default (state old) state')
                     (default (lastCheckpoint old) lastCheckpoint')
                     (default (reason old) reason') in
  let did_change := bool_decide (new <> old) in
  mk new (checkpoints b) (_run_task b) (_pause_future b) (_is_exiting b)
     (if did_change || force_output then published b ++ [new]
      else published b).

(** [set_state] with [keep_old_reason=False]; the time stamp it records
    is left out. *)
Definition set_state (state' : option ScriptState) (reason' : option string)
    (last_checkpoint : option string) (force_output : bool) (b : t) : t :=
  set_put state' reason' last_checkpoint force_output b.

Definition set__pause_future (f : option Awaitable) (b : t) : t :=
  mk (evt_state b) (checkpoints b) (_run_task b) f (_is_exiting b)
     (published b).

(** How a call of [checkpoint] leaves the coroutine that awaits it. *)
Inductive Outcome : Type :=
  | RaisedRuntimeError
  | RaisedCancelledError
  | AwaitingResume
  | Returned.

Section Checkpoint.

(** [re.fullmatch(pattern, string)] is truthy: the regular expression
    engine is Python's and is taken as given. *)
Variable fullmatch : string -> string -> bool.

(** [checkpoint(name)], up to the point where the coroutine raises,
    suspends on [_pause_future], or returns. *)
Definition checkpoint (name : string) (b : t) : Outcome * t :=
  if negb (bool_decide (state (evt_state b) = RUNNING))
  then (RaisedRuntimeError, b)
  else match _run_task b with
  | None => (RaisedRuntimeError, b)
  | Some Finished => (RaisedRuntimeError, b)
  | Some Pending =>
      if fullmatch (stop (checkpoints b)) name then
        (RaisedCancelledError,
         set_state (Some STOPPING) None (Some name) false b)
      else if fullmatch (pause (checkpoints b)) name then
        (AwaitingResume,
         set_state (Some PAUSED) None (Some name) false
           (set__pause_future (Some Pending) b))
      else
        (Returned, set_state None None (Some name) true b)
  end.

(** [do_resume] followed by the rest of the paused [checkpoint]: the
    future gets its result and the coroutine sets RUNNING. *)
Definition resume (b : t) : option t :=
  if _is_exiting b then None
  else if negb (bool_decide (state (evt_state b) = PAUSED)) then None
  else Some (set_state (Some RUNNING) None None false
               (set__pause_future (Some Finished) b)).

(** C8.  In a running script whose run task is active, for every
    checkpoint name [n]: [checkpoint(n)] sets STOPPING and raises
    [CancelledError] if and only if the stop expression fully matches
    [n]; otherwise it sets PAUSED and waits for [resume] if and only
    if the pause expression fully matches [n]; otherwise it returns
    with the state RUNNING and puts a [state] event.  The stop
    expression is looked at first.  In all three cases [n] becomes the
    last checkpoint, and [resume] takes a paused script that is not
    exiting back to RUNNING. *)
Theorem C8_checkpoint_regex (b : t) (n : string) :
  state (evt_state b) = RUNNING ->
  _run_task b = Some Pending ->
  let stops := fullmatch (stop (checkpoints b)) n in
  let pauses := fullmatch (pause (checkpoints b)) n in
  let o := (checkpoint n b).1 in
  let b' := (checkpoint n b).2 in
  (state (evt_state b') = STOPPING <-> stops = true) /\
  (o = RaisedCancelledError <-> stops = true) /\
  (state (evt_state b') = PAUSED <-> stops = false /\ pauses = true) /\
  (o = AwaitingResume <-> stops = false /\ pauses = true) /\
  (state (evt_state b') = RUNNING <-> stops = false /\ pauses = false) /\
  (o = Returned <-> stops = false /\ pauses = false) /\
  lastCheckpoint (evt_state b') = n /\
  (o = Returned ->
   last (published b') = Some (mkState RUNNING n (reason (evt_state b)))) /\
  (o = AwaitingResume -> _is_exiting b = false ->
   exists b'', resume b' = Some b'' /\
               state (evt_state b'') = RUNNING /\
               lastCheckpoint (evt_state b'') = n).
Proof.
  intros Hrun Htask stops pauses o b'.
  subst o b' stops pauses. unfold checkpoint.
  rewrite Hrun, Htask. simpl.
  destruct (fullmatch (stop (checkpoints b)) n);
    [|destruct (fullmatch (pause (checkpoints b)) n)]; simpl.
  - split_and!; try done; try (split; [done|by intros [? ?]]).
  - split_and!; try done; try (split; [done|by intros [? ?]]).
    intros _ He. unfold resume. simpl. rewrite He.
    eexists. by split_and!.
  - split_and!; simpl; rewrite ?Hrun; try done;
      try (split; [done|by intros [? ?]]).
    intros _. rewrite orb_true_r, last_snoc. done.
Qed.

End Checkpoint.

(** A running script with the checkpoints of the unit tests: pause at
    ["start"], stop at ["end"]. *)
Definition example_script : t :=
  mk (mkState RUNNING "" "") (mkCheckpoints "start" "end")
     (Some Pending) None false [mkState RUNNING "" ""].

Lemma C8_checkpoint_regex_witness :
  let b := example_script in
  let stops := String.eqb (stop (checkpoints b)) "start" in
  let pauses := String.eqb (pause (checkpoints b)) "start" in
  let o := (checkpoint String.eqb "start" b).1 in
  let b' := (checkpoint String.eqb "start" b).2 in
  state (evt_state b) = RUNNING /\
  _run_task b = Some Pending /\
  (state (evt_state b') = STOPPING <-> stops = true) /\
  (o = RaisedCancelledError <-> stops = true) /\
  (state (evt_state b') = PAUSED <-> stops = false /\ pauses = true) /\
  (o = AwaitingResume <-> stops = false /\ pauses = true) /\
  (state (evt_state b') = RUNNING <-> stops = false /\ pauses = false) /\
  (o = Returned <-> stops = false /\ pauses = false) /\
  lastCheckpoint (evt_state b') = "start" /\
  (o = Returned ->
   last (published b')
     = Some (mkState RUNNING "start" (reason (evt_state b)))) /\
  (o = AwaitingResume -> _is_exiting b = false ->
   exists b'', resume b' = Some b'' /\
               state (evt_state b'') = RUNNING /\
               lastCheckpoint (evt_state b'') = "start").
Proof.
  intros b stops pauses o b'.
  split; [reflexivity|]. split; [reflexivity|].
  apply (C8_checkpoint_regex String.eqb example_script "start");
    reflexivity.
Defined.

(** The three outcomes on the example, with expressions that are plain
    names. *)
Example example_script_checkpoints :
  (checkpoint String.eqb "end" example_script).1 = RaisedCancelledError /\
  state (evt_state (checkpoint String.eqb "end" example_script).2)
    = STOPPING /\
  (checkpoint String.eqb "start" example_script).1 = AwaitingResume /\
  state (evt_state (checkpoint String.eqb "start" example_script).2)
    = PAUSED /\
  (checkpoint String.eqb "middle" example_script).1 = Returned /\
  evt_state (checkpoint String.eqb "middle" example_script).2
    = mkState RUNNING "middle" "".
Proof. by vm_compute. Qed.

(** *** The command line *)

(** What a script process leaves behind: the index its script was made
    with, if one was made, the exit status, and what went to the two
    output streams. *)
Inductive Printed : Type :=
  | Usage
  | Help
  | ErrorLine (message : string).

Record Exit : Type := mkExit {
  script_index : option Z;
  returncode : Z;
  stdout : list Printed;
  stderr : list Printed
}.

Definition is_digit (c : ascii) : bool :=
  (48 <=? nat_of_ascii c)%nat && (nat_of_ascii c <=? 57)%nat.

Fixpoint all_digits (s : string) : bool :=
  match s with
  | EmptyString => true
  | String c s' => is_digit c && all_digits s'
  end.

Fixpoint digits_value (acc : Z) (s : string) : Z :=
  match s with
  | EmptyString => acc
  | String c s' =>
      digits_value (10 * acc + (Z.of_nat (nat_of_ascii c) - 48))%Z s'
  end.

Definition unsigned_int (s : string) : option Z :=
  match s with
  | EmptyString => None
  | _ => if all_digits s then Some (digits_value 0 s) else None
  end.

(** [int(s)] for an optional sign and decimal digits. *)
Definition parse_int (s : string) : option Z :=
  match s with
  | String "-" r => Z.opp <$> unsigned_int r
  | String "+" r => unsigned_int r
  | _ => unsigned_int s
  end.

Inductive ArgKind : Type :=
  | HelpOption
  | UnknownOption
  | Positional.

(** How [argparse] reads one argument of a parser whose only options
    are [-h] and [--help]: what starts with ["-"] is an option, except
    ["-"] itself and a negative integer.  Abbreviated long options, the
    ["--"] separator and arguments with a space in them are left out. *)
Definition classify (arg : string) : ArgKind :=
  if bool_decide (arg = "-h") || bool_decide (arg = "--help")
  then HelpOption
  else match arg with
       | String "-" EmptyString => Positional
       | String "-" r => if all_digits r then Positional else UnknownOption
       | _ => Positional
       end.

Inductive ParseResult : Type :=
  | Parsed (index : Z)
  | HelpExit
  | ParseError (message : string).

(** [", ".join]-like joining with a space, as in the message for
    unrecognized arguments. *)
Fixpoint join_space (l : list string) : string :=
  match l with
  | [] => ""
  | [a] => a
  | a :: l' => (a ++ " " ++ join_space l')%string
  end.

(** [parser.parse_args()] for the parser of [main], which has the one
    positional argument [index] of type [int]. *)
Fixpoint parse_loop (args : list string) (index : option Z)
    (extras : list string) : ParseResult :=
  match args with
  | [] =>
      match index with
      | None => ParseError "the following arguments are required: index"
      | Some i =>
          match extras with
          | [] => Parsed i
          | _ => ParseError ("unrecognized arguments: " ++ join_space extras)
          end
      end
  | arg :: args' =>
      match classify arg with
      | HelpOption => HelpExit
      | UnknownOption => parse_loop args' index (extras ++ [arg])
      | Positional =>
          match index with
          | Some _ => parse_loop args' index (extras ++ [arg])
          | None =>
              match parse_int arg with
              | Some i => parse_loop args' (Some i) extras
              | None =>
                  ParseError
                    ("argument index: invalid int value: '" ++ arg ++ "'")
              end
          end
      end
  end.

Definition parse_args (argv : list string) : ParseResult :=
  parse_loop (tail argv) None [].

(** The return code for the final state of the script. *)
Definition return_code (final : ScriptState) : Z :=
  match final with
  | DONE => 0
  | STOPPED => 0
  | FAILED => 1
  | _ => 2
  end.

(** [BaseScript.main]: parse the command line, make the script with the
    index, run the event loop until [done_task] is done and exit with
    the code for the state the script is then in; [final_state] is that
    state.  A command line that does not parse ends the process inside
    [parse_args], with status 2 and a message on the error stream. *)
Definition main (argv : list string) (final_state : ScriptState) : Exit :=
  match parse_args argv with
  | Parsed index => mkExit (Some index) (return_code final_state) [] []
  | HelpExit => mkExit None 0 [Usage; Help] []
  | ParseError message => mkExit None 2 [] [Usage; ErrorLine message]
  end.

(** C9.  The specification, like [test_script_schema_process], asks
    that [<script> <index> --schema] write the schema to the output
    stream and exit with code 0.  The parser of
    [main] has the positional [index] and nothing else: for the command
    line [script1 1 --schema] no script is made, nothing is written to
    the output stream, an error goes to the error stream and the exit
    status is 2, whatever the script would have done.  The plain
    invocation [script1 1] runs the script with index 1. *)
Theorem C9_schema_option_is_rejected (final_state : ScriptState) :
  main ["script1"; "1"; "--schema"] final_state
    = mkExit None 2 []
        [Usage; ErrorLine "unrecognized arguments: --schema"] /\
  main ["script1"; "1"] final_state
    = mkExit (Some 1%Z) (return_code final_state) [] [] /\
  return_code DONE = 0%Z.
Proof. by vm_compute. Qed.

(** ** The commands of a script and its exit *)

(** [ScriptState(...).name]. *)
Definition state_name (s : ScriptState) : string :=
  match s with
  | UNCONFIGURED => "UNCONFIGURED"
  | CONFIGURED => "CONFIGURED"
  | RUNNING => "RUNNING"
  | PAUSED => "PAUSED"
  | ENDING => "ENDING"
  | STOPPING => "STOPPING"
  | FAILING => "FAILING"
  | DONE => "DONE"
  | STOPPED => "STOPPED"
  | FAILED => "FAILED"
  end.

(** Python truthiness of a [str]. *)
Definition nonempty (s : string) : bool :=
  match s with
  | EmptyString => false
  | String _ _ => true
  end.

(** [set_state] with all its arguments: with [keep_old_reason] a new
    reason is appended to the old one after ["; "]. *)
Definition set_state_full (state' : option ScriptState)
    (reason' : option string) (keep_old_reason : bool)
    (last_checkpoint : option string) (force_output : bool) (b : t) : t :=
  let reason'' :=
    match reason' with
    | Some r =>
        if keep_old_reason then
          let sepstr := if nonempty (reason (evt_state b))
                        then "; " else "" in
          Some (reason (evt_state b) ++ sepstr ++ r)%string
        else Some r
    | None => None
    end in
  set_put state' reason'' last_checkpoint force_output b.

Definition set__run_task (task : option Awaitable) (b : t) : t :=
  mk (evt_state b) (checkpoints b) task (_pause_future b) (_is_exiting b)
     (published b).

Definition set__is_exiting (e : bool) (b : t) : t :=
  mk (evt_state b) (checkpoints b) (_run_task b) (_pause_future b) e
     (published b).


(** [assert_state(action, states)] returns rather than raises. *)
Definition assert_state (states : list ScriptState) (b : t) : bool :=
  negb (_is_exiting b) && bool_decide (state (evt_state b) ∈ states).

(** The final state for the state in which [_exit] finds the script. *)
Definition final_state (s : ScriptState) : option ScriptState :=
  match s with
  | ENDING => Some DONE
  | STOPPING => Some STOPPED
  | FAILING => Some FAILED
  | _ => None
  end.

(** [_exit], up to the delay before the script closes.  [cleanup_error]
    is the message of the exception that the script's [cleanup] raises,
    if it raises one; [cleanup] is awaited only when there is a run
    task. *)
Definition _exit (cleanup_error : option string) (b : t) : t :=
  if _is_exiting b then b
  else
    let b := set__is_exiting true b in
    match _run_task b, cleanup_error with
    | Some _, Some e =>
        set_state_full (Some FAILED) (Some ("failed in _exit: " ++ e)%string)
          true None false b
    | _, _ =>
        match final_state (state (evt_state b)) with
        | Some final => set_state_full (Some final) None true None false b
        | None =>
            set_state_full (Some FAILED)
              (Some ("unexpected state for _exit "
                     ++ state_name (state (evt_state b)))%string)
              true None false b
        end
    end.

(** How the coroutine [run] of the script ends. *)
Inductive RunOutcome : Type :=
  | RunReturned
  | RunCancelled
  | RunRaised (e : string).

(** [do_run] up to the start of the run task; [None] stands for the
    [ExpectedError] of [assert_state]. *)
Definition do_run_begin (b : t) : option t :=
  if assert_state [CONFIGURED] b
  then Some (set__run_task (Some Pending)
               (set_state (Some RUNNING) None None false b))
  else None.

(** [do_run] from the end of the run task on; [b] is the script as the
    run task left it. *)
Definition do_run_end (outcome : RunOutcome) (cleanup_error : option string)
    (b : t) : t :=
  let b := set__run_task (Some Finished) b in
  let b :=
    match outcome with
    | RunReturned => set_state (Some ENDING) None None false b
    | RunCancelled =>
        if bool_decide (state (evt_state b) <> STOPPING)
        then set_state (Some STOPPING) None None false b
        else b
    | RunRaised e =>
        set_state (Some FAILING) (Some ("Error in run: " ++ e)%string)
          None false b
    end in
  _exit cleanup_error b.

(** What [do_stop] does to the run task. *)
Inductive StopEffect : Type :=
  | NothingToStop
  | RunTaskCancelled
  | Exited.

(** [do_stop]: cancelling the run task makes [run] end with
    [RunCancelled]; the script itself is then changed by [do_run]. *)
Definition do_stop (cleanup_error : option string) (b : t)
    : StopEffect * t :=
  if _is_exiting b then (NothingToStop, b)
  else match _run_task b with
       | Some Pending => (RunTaskCancelled, b)
       | _ =>
           (Exited,
            _exit cleanup_error
              (set_state (Some STOPPING) None None false b))
       end.

Section SetCheckpoints.

(** [re.compile(pattern)] does not raise. *)
Variable valid_regex : string -> bool.



End SetCheckpoints.






(** [checkpoint] refuses, with a [RuntimeError] and without any effect,
    exactly when the script is not RUNNING or has no run task that is
    still going; whatever the checkpoint expressions are. *)
Theorem checkpoint_guard (fullmatch : string -> string -> bool)
    (name : string) (b : t) :
  ((checkpoint fullmatch name b).1 = RaisedRuntimeError <->
   state (evt_state b) <> RUNNING \/ _run_task b <> Some Pending) /\
  ((checkpoint fullmatch name b).1 = RaisedRuntimeError ->
   (checkpoint fullmatch name b).2 = b).
Proof.
  unfold checkpoint. case_bool_decide as Hst; simpl.
  - destruct (_run_task b) as [[|]|]; simpl.
    + destruct (fullmatch (stop (checkpoints b)) name);
        [|destruct (fullmatch (pause (checkpoints b)) name)]; simpl;
        (split; [split; [done|intros [?|?]; done]|done]).
    + split; [split; [intros _; by right|done]|done].
    + split; [split; [intros _; by right|done]|done].
  - split; [split; [intros _; by left|done]|done].
Qed.

(** The commands are gated by the state: [run] is taken only by a
    CONFIGURED script and [resume] only by a PAUSED one, and neither by
    a script that is exiting; on a script that is exiting [stop] and
    [_exit] do nothing. *)
Theorem commands_gated (cleanup_error : option string) (b : t) :
  (is_Some (do_run_begin b) <->
   _is_exiting b = false /\ state (evt_state b) = CONFIGURED) /\
  (is_Some (resume b) <->
   _is_exiting b = false /\ state (evt_state b) = PAUSED) /\
  (_is_exiting b = true ->
   do_stop cleanup_error b = (NothingToStop, b) /\
   _exit cleanup_error b = b).
Proof.
  unfold do_run_begin, resume, assert_state, do_stop, _exit.
  destruct (_is_exiting b); simpl.
  - split_and!; try done; split; try done; by intros [? ?].
  - split_and!; [| |done].
    + case_bool_decide as Hst; split.
      * intros _. split; [done|]. by apply list_elem_of_singleton in Hst.
      * intros _. eauto.
      * intros [x Hx]. discriminate.
      * intros [_ Hs]. exfalso. apply Hst. rewrite Hs.
        apply list_elem_of_here.
    + case_bool_decide as Hst; simpl; split.
      * intros _. done.
      * intros _. eauto.
      * intros [x Hx]. discriminate.
      * intros [_ Hs]. done.
Qed.

(** A [run] that awaits [checkpoint] for one name after the other and
    touches the script in no other way: what the first checkpoint that
    does not return leaves, or the last one. *)
Fixpoint run_checkpoints (fullmatch : string -> string -> bool)
    (names : list string) (b : t) : Outcome * t :=
  match names with
  | [] => (Returned, b)
  | name :: rest =>
      match checkpoint fullmatch name b with
      | (Returned, b') => run_checkpoints fullmatch rest b'
      | left_early => left_early
      end
  end.

(** Checkpoints that neither expression matches are passed one by one,
    each with a state event of its own. *)
Lemma run_checkpoints_passed (fullmatch : string -> string -> bool)
    (earlier rest : list string) (b : t) :
  state (evt_state b) = RUNNING ->
  _run_task b = Some Pending ->
  Forall (fun n => fullmatch (stop (checkpoints b)) n = false /\
                   fullmatch (pause (checkpoints b)) n = false) earlier ->
  exists b',
    run_checkpoints fullmatch (earlier ++ rest) b =
      run_checkpoints fullmatch rest b' /\
    state (evt_state b') = RUNNING /\
    reason (evt_state b') = reason (evt_state b) /\
    checkpoints b' = checkpoints b /\
    _run_task b' = Some Pending /\
    _is_exiting b' = _is_exiting b /\
    published b' =
      published b
      ++ ((fun n => mkState RUNNING n (reason (evt_state b))) <$> earlier).
Proof.
  revert b. induction earlier as [|n earlier IH]; intros b Hst Htask Hall.
  - exists b. simpl. rewrite app_nil_r. by split_and!.
  - apply Forall_cons in Hall as [[Hs Hp] Hall].
    destruct b as [[st lc r] cps task fut ex pub]. simpl in *.
    subst st task.
    unfold checkpoint. simpl. rewrite Hs, Hp.
    destruct (IH (set_state None None (Some n) true
                    (mk (mkState RUNNING lc r) cps (Some Pending) fut ex
                       pub)))
      as (b' & Hrun & Hst' & Hr' & Hc' & Ht' & He' & Hpub');
      [done|done|exact Hall|].
    exists b'. unfold set_state, set_put in *. simpl in *.
    rewrite orb_true_r in *.
    split; [exact Hrun|]. split_and!; try done.
    rewrite Hpub'. by rewrite <- app_assoc.
Qed.

(** The life of a run that meets a stop checkpoint: from CONFIGURED,
    [run] takes the script to RUNNING; each checkpoint passed on the way
    that neither expression matches puts a state event of its own; the
    checkpoint whose name the stop expression matches sets STOPPING and
    cancels the run; the script ends STOPPED with that checkpoint as its
    last, and the return code is 0.  The state events are RUNNING, one
    RUNNING event for each checkpoint passed, STOPPING and STOPPED, and
    no other. *)
Theorem run_stops_at_checkpoint (fullmatch : string -> string -> bool)
    (earlier : list string) (name : string) (b : t) :
  state (evt_state b) = CONFIGURED ->
  _is_exiting b = false ->
  Forall (fun n => fullmatch (stop (checkpoints b)) n = false /\
                   fullmatch (pause (checkpoints b)) n = false) earlier ->
  fullmatch (stop (checkpoints b)) name = true ->
  exists b1 b2,
    do_run_begin b = Some b1 /\
    run_checkpoints fullmatch (earlier ++ [name]) b1
      = (RaisedCancelledError, b2) /\
    let b3 := do_run_end RunCancelled None b2 in
    state (evt_state b3) = STOPPED /\
    lastCheckpoint (evt_state b3) = name /\
    return_code (state (evt_state b3)) = 0%Z /\
    published b3 =
      published b
      ++ [mkState RUNNING (lastCheckpoint (evt_state b))
            (reason (evt_state b))]
      ++ ((fun n => mkState RUNNING n (reason (evt_state b))) <$> earlier)
      ++ [mkState STOPPING name (reason (evt_state b));
          mkState STOPPED name (reason (evt_state b))].
Proof.
  intros Hst Hex Hpass Hstop.
  destruct b as [[st lc r] cps task fut ex pub]. simpl in *. subst st ex.
  pose (b1 := mk (mkState RUNNING lc r) cps (Some Pending) fut false
                (pub ++ [mkState RUNNING lc r])).
  destruct (run_checkpoints_passed fullmatch earlier [name] b1)
    as (b' & Hrun & Hst' & Hr' & Hc' & Ht' & He' & Hpub');
    [done|done|exact Hpass|].
  destruct b' as [[st' lc' r'] cps' task' fut' ex' pub']. simpl in *.
  subst st' r' cps' task' ex' pub'.
  unfold do_run_begin, assert_state. simpl.
  exists b1. eexists. split; [reflexivity|].
  rewrite Hrun. unfold checkpoint. simpl. rewrite Hstop.
  split; [reflexivity|]. simpl.
  unfold do_run_end, set_state, set_put, _exit, set_state_full, set_put.
  simpl. rewrite <- !app_assoc. done.
Qed.

Lemma run_stops_at_checkpoint_witness :
  let b := mk (mkState CONFIGURED "" "") (mkCheckpoints "" "end")
              None None false [mkState CONFIGURED "" ""] in
  state (evt_state b) = CONFIGURED /\
  _is_exiting b = false /\
  exists b1 b2,
    do_run_begin b = Some b1 /\
    run_checkpoints String.eqb ["start"; "end"] b1
      = (RaisedCancelledError, b2) /\
    let b3 := do_run_end RunCancelled None b2 in
    state (evt_state b3) = STOPPED /\
    lastCheckpoint (evt_state b3) = "end" /\
    return_code (state (evt_state b3)) = 0%Z /\
    published b3 =
      [mkState CONFIGURED "" ""; mkState RUNNING "" "";
       mkState RUNNING "start" ""; mkState STOPPING "end" "";
       mkState STOPPED "end" ""].
Proof.
  intros b. split; [reflexivity|]. split; [reflexivity|].
  apply (run_stops_at_checkpoint String.eqb ["start"] "end" b);
    [reflexivity|reflexivity| |reflexivity].
  apply Forall_cons. split; [by split|apply Forall_nil_2].
Defined.



Section Configure.

(** The configuration handed to the script's [configure]. *)
Variable Config : Type.

(** [self.config_validator]: [None] for a script without a schema;
    otherwise [yaml.safe_load] of a non-empty configuration string (the
    empty dict for the empty string) followed by [validate], giving the
    configuration with the defaults filled in, or [None] when either
    raises. *)
Variable config_validator : option (string -> option Config).

(** [types.SimpleNamespace()]. *)
Variable empty_config : Config.

(** The script's own [configure] and [set_metadata] return rather than
    raise. *)
Variable configure : Config -> bool.
Variable set_metadata : Config -> bool.

(** [do_configure]; [None] stands for the exception raised. *)
Definition do_configure (config : string) (b : t) : option t :=
  if negb (assert_state [UNCONFIGURED] b) then None
  else
    match (match config_validator with
           | None => if nonempty config then None else Some empty_config
           | Some load_and_validate => load_and_validate config
           end) with
    | None => None
    | Some cfg =>
        if negb (configure cfg) then None
        else if negb (set_metadata cfg) then None
        else Some (set_state (Some CONFIGURED) None None false b)
    end.

(** [configure] is taken once: it needs a script in the state
    UNCONFIGURED that is not exiting, it takes the script to CONFIGURED
    and puts the state event, after which [run] is accepted and every
    further [configure] is refused.  A script without a schema refuses
    every configuration but the empty one. *)
Theorem do_configure_spec (config : string) (b : t) :
  match do_configure config b with
  | Some b' =>
      _is_exiting b = false /\
      state (evt_state b) = UNCONFIGURED /\
      state (evt_state b') = CONFIGURED /\
      lastCheckpoint (evt_state b') = lastCheckpoint (evt_state b) /\
      last (published b') = Some (evt_state b') /\
      is_Some (do_run_begin b') /\
      (forall config', do_configure config' b' = None)
  | None => True
  end /\
  (config_validator = None -> nonempty config = true ->
   do_configure config b = None).
Proof.
  split.
  - unfold do_configure at 1. unfold assert_state.
    destruct (_is_exiting b) eqn:Hex; simpl; [done|].
    case_bool_decide as Hst; simpl; [|done].
    apply list_elem_of_singleton in Hst.
    destruct (match config_validator with
              | Some _ => _ | None => _ end) as [cfg|]; [|done].
    destruct (configure cfg); simpl; [|done].
    destruct (set_metadata cfg); simpl; [|done].
    split_and!; try done.
    + unfold set_state, set_put. simpl.
      rewrite bool_decide_eq_true_2; [simpl; by rewrite last_snoc|].
      intros H. apply (f_equal state) in H. simpl in H. congruence.
    + unfold do_run_begin, assert_state. simpl. rewrite Hex. simpl.
      eauto.
    + intros config'. unfold do_configure, assert_state. simpl.
      rewrite Hex. done.
  - intros Hv Hne. unfold do_configure. rewrite Hv, Hne.
    by destruct (negb _).
Qed.

End Configure.

End BaseScript.

(** ** QueueState: the queue as the user interface sees it *)

Module QueueState.

Section Model.

(** Time stamps are floating point numbers that are only stored. *)
Variable float : Type.
Variable zero : float.

(** What a script entry may hold under ["remote"]. *)
Variable Remote : Type.

(** [ScriptState(value)] and [ScriptProcessState(value)] do not raise
    [ValueError]; the value of [ScriptProcessState.DONE]. *)
Variable valid_script_state : Z -> bool.
Variable valid_process_state : Z -> bool.
Variable PROCESS_DONE : Z.

(** The dict that [new_script] makes, key by key. *)
Record Script : Type := mkScript {
  index : Z;
  type : string;
  path : string;
  timestamp_process_start : float;
  timestamp_run_start : float;
  timestamp_configure_start : float;
  timestamp_configure_end : float;
  timestamp_process_end : float;
  script_state : Z;
  process_state : Z;
  remote : option Remote;
  updated : bool
}.

Record t : Type := mk {
  enabled : bool;
  running : bool;
  _queue_script_indices : list Z;
  _past_script_indices : list Z;
  _current_script_index : Z;
  scripts : gmap Z Script
}.

(** The fields of the [queue] event that [update] reads. *)
Record QueueEvent : Type := mkQueueEvent {
  ev_enabled : bool;
  ev_running : bool;
  currentSalIndex : Z;
  salIndices : list Z;
  length : nat;
  pastSalIndices : list Z;
  pastLength : nat
}.


(** A method ends by return or by an exception, and leaves the state it
    has reached. *)
Inductive result : Type :=
  | Ok (q : t)
  | Raise (q : t).

Definition state_of (r : result) : t :=
  match r with
  | Ok q => q
  | Raise q => q
  end.

Definition init : t := mk false false [] [] 0 ∅.

(** [state]. *)
Definition state (q : t) : string :=
  if running q then "Running" else "Stopped".

(** [script_indices]. *)
Definition script_indices (q : t) : list Z :=
  (if bool_decide (0 < _current_script_index q)%Z
   then [_current_script_index q] else [])
  ++ _queue_script_indices q ++ _past_script_indices q.

(** [new_script]. *)
Definition new_script (salindex : Z) : Script :=
  mkScript salindex "UNKNOWN" "UNKNOWN" zero zero zero zero zero 0 0 None
    false.

Definition set_scripts (s : gmap Z Script) (q : t) : t :=
  mk (enabled q) (running q) (_queue_script_indices q)
     (_past_script_indices q) (_current_script_index q) s.

(** [add_script]. *)
Definition add_script (salindex : Z) (q : t) : t :=
  set_scripts (<[salindex := new_script salindex]> (scripts q)) q.

(** [max(l, default=d)]. *)
Definition max_default (l : list Z) (d : Z) : Z :=
  match l with
  | [] => d
  | x :: l' => foldl Z.max x l'
  end.

(** The test of [clear_scripts] for removing the entry of an index. *)
Definition removable (q : t) (salindex : Z) : Prop :=
  (salindex ∉ _queue_script_indices q) /\
  (salindex ∉ _past_script_indices q) /\
  salindex <> _current_script_index q /\
  (salindex < max_default (_queue_script_indices q) salindex)%Z.

#[local] Instance removable_dec q i : Decision (removable q i).
Proof. unfold removable. apply _. Defined.

(** [clear_scripts]: the test does not look at [scripts], so deleting
    key after key is filtering. *)
Definition clear_scripts (q : t) : t :=
  set_scripts (filter (fun kv => ~ removable q kv.1) (scripts q)) q.

(** [update]: [IndexError] when an event gives a length beyond its
    array; the flags and the current index are stored by then. *)
Definition update (queue : QueueEvent) (q : t) : result :=
  let q1 := mk (ev_enabled queue) (ev_running queue)
               (_queue_script_indices q) (_past_script_indices q)
               (currentSalIndex queue) (scripts q) in
  if bool_decide (List.length (salIndices queue) < length queue) then Raise q1
  else
    let q2 := mk (enabled q1) (running q1)
                 (take (length queue) (salIndices queue))
                 (_past_script_indices q1) (_current_script_index q1)
                 (scripts q1) in
    if bool_decide (List.length (pastSalIndices queue) < pastLength queue)
    then Raise q2
    else
      Ok (clear_scripts
            (mk (enabled q2) (running q2) (_queue_script_indices q2)
                (take (pastLength queue) (pastSalIndices queue))
                (_current_script_index q2) (scripts q2))).






(** What [parse] returns. *)
Record Parsed : Type := mkParsed {
  p_state : string;
  queue_scripts : gmap Z Script;
  past_scripts : gmap Z Script;
  current : option Script
}.

(** [parse]; [None] stands for the [KeyError] of a past or current index
    without an entry. *)
Definition parse (q : t) : option Parsed :=
  let queue_scripts :=
    foldl (fun d index =>
             <[index := default (new_script index) (scripts q !! index)]> d)
          ∅ (_queue_script_indices q) in
  past ← foldl (fun acc index =>
                  d ← acc; s ← scripts q !! index; Some (<[index := s]> d))
               (Some ∅) (_past_script_indices q);
  if bool_decide (0 < _current_script_index q)%Z then
    s ← scripts q !! _current_script_index q;
    Some (mkParsed (state q) queue_scripts past (Some s))
  else Some (mkParsed (state q) queue_scripts past None).

(** *** Properties of the queue state *)

(** What [clear_scripts] leaves under an index. *)
Lemma clear_scripts_lookup (q : t) (i : Z) :
  scripts (clear_scripts q) !! i =
  if decide (removable q i) then None else scripts q !! i.
Proof.
  unfold clear_scripts. simpl. rewrite map_lookup_filter.
  destruct (scripts q !! i) as [e|]; simpl; [|by case_decide].
  case_decide; [by rewrite option_guard_False by auto|].
  by rewrite option_guard_True.
Qed.

Lemma clear_scripts_keeps_listed (q : t) (i : Z) :
  i ∈ script_indices q -> scripts (clear_scripts q) !! i = scripts q !! i.
Proof.
  intros Hin. rewrite clear_scripts_lookup. case_decide as Hr; [|done].
  exfalso. destruct Hr as (Hq & Hp & Hc & _).
  unfold script_indices in Hin.
  apply elem_of_app in Hin as [Hin|Hin].
  - case_bool_decide; [|by apply not_elem_of_nil in Hin].
    by apply list_elem_of_singleton in Hin.
  - apply elem_of_app in Hin as [Hin|Hin]; done.
Qed.

(** [clear_scripts] removes the entry of an index exactly when the
    index is neither queued, nor past, nor current, and is below the
    largest queued index.  So it never drops a script that the queue
    event mentions, it keeps every index above those queued (a script
    just added, which the queue event does not list yet), and with an
    empty queue it removes nothing at all. *)
Theorem clear_scripts_spec (q : t) :
  (forall i,
     scripts (clear_scripts q) !! i =
     if decide (removable q i) then None else scripts q !! i) /\
  (forall i, i ∈ script_indices q ->
     scripts (clear_scripts q) !! i = scripts q !! i) /\
  (forall i, (forall j, j ∈ _queue_script_indices q -> (j <= i)%Z) ->
     scripts (clear_scripts q) !! i = scripts q !! i) /\
  (_queue_script_indices q = [] -> clear_scripts q = q) /\
  clear_scripts (clear_scripts q) = clear_scripts q.
Proof.
  pose proof (clear_scripts_lookup q) as Hlook.
  assert (forall i, (forall j, j ∈ _queue_script_indices q -> (j <= i)%Z) ->
                    ~ removable q i) as Habove.
  { intros i Hi (_ & _ & _ & Hlt).
    destruct (_queue_script_indices q) as [|y l] eqn:Hq; simpl in Hlt;
      [lia|].
    assert (forall (l : list Z) (a : Z),
              (a <= i)%Z -> (forall j, j ∈ l -> (j <= i)%Z) ->
              (foldl Z.max a l <= i)%Z) as Hmax.
    { clear. induction l as [|z l IH]; intros a Ha Hl; simpl; [done|].
      apply IH.
      - pose proof (Hl z (list_elem_of_here _ _)). lia.
      - intros j Hj. apply Hl. by apply list_elem_of_further. }
    pose proof (Hmax l y (Hi y (list_elem_of_here _ _))
                  (fun j Hj => Hi j (list_elem_of_further _ _ _ Hj))).
    lia. }
  split; [exact Hlook|]. split_and!.
  - exact (clear_scripts_keeps_listed q).
  - intros i Hi. rewrite Hlook. case_decide as Hr; [|done].
    exfalso. by apply (Habove i Hi).
  - intros Hq. destruct q as [en ru qi pi ci sc]. simpl in *. subst qi.
    unfold clear_scripts, set_scripts. simpl. f_equal.
    apply map_filter_id.
    intros i e _. apply Habove. intros j Hj. by apply not_elem_of_nil in Hj.
  - unfold clear_scripts, set_scripts. simpl. f_equal.
    apply map_filter_id.
    intros i e Hi%map_lookup_filter_Some. exact (proj2 Hi).
Qed.


(** The two loops of [parse], entry by entry. *)
Lemma parse_queue_loop (m : gmap Z Script) (l : list Z)
    (d0 : gmap Z Script) (j : Z) :
  foldl (fun d index =>
           <[index := default (new_script index) (m !! index)]> d) d0 l !! j =
  if decide (j ∈ l) then Some (default (new_script j) (m !! j))
  else d0 !! j.
Proof.
  revert d0. induction l as [|i l IH]; intros d0; simpl.
  - done.
  - rewrite IH. destruct (decide (j ∈ l)) as [Hl|Hl].
    + rewrite decide_True by (by apply list_elem_of_further). done.
    + destruct (decide (j = i)) as [->|Hji].
      * rewrite decide_True by apply list_elem_of_here.
        by rewrite lookup_insert_eq.
      * rewrite decide_False
          by (intros [?|?]%elem_of_cons; done).
        by rewrite lookup_insert_ne.
Qed.

Lemma parse_past_loop (m : gmap Z Script) (l : list Z)
    (d0 : gmap Z Script) :
  match foldl (fun acc index =>
                 d ← acc; s ← m !! index; Some (<[index := s]> d))
              (Some d0) l with
  | Some d =>
      (forall i, i ∈ l -> is_Some (m !! i)) /\
      (forall j, d !! j = if decide (j ∈ l) then m !! j else d0 !! j)
  | None => exists i, (i ∈ l) /\ m !! i = None
  end.
Proof.
  revert d0. induction l as [|i l IH]; intros d0; simpl.
  - split; [by intros i Hi%not_elem_of_nil|].
    done.
  - destruct (m !! i) as [s|] eqn:Hi; simpl.
    + specialize (IH (<[i := s]> d0)).
      destruct (foldl _ (Some (<[i := s]> d0)) l) as [d|].
      * destruct IH as [Hall Hlook]. split.
        { intros k [->|Hk]%elem_of_cons; [by rewrite Hi|by apply Hall]. }
        intros j. rewrite Hlook. destruct (decide (j ∈ l)) as [Hl|Hl].
        { rewrite decide_True by (by apply list_elem_of_further). done. }
        destruct (decide (j = i)) as [->|Hji].
        { rewrite decide_True by apply list_elem_of_here.
          by rewrite lookup_insert_eq. }
        rewrite decide_False by (intros [?|?]%elem_of_cons; done).
        by rewrite lookup_insert_ne.
      * destruct IH as (k & Hk & Hnone). exists k.
        split; [by apply list_elem_of_further|done].
    + assert (forall l', foldl (fun (acc : option (gmap Z Script)) index =>
                 d ← acc; s ← m !! index; Some (<[index := s]> d))
                 None l' = None) as Hnone.
      { induction l' as [|? ? IH']; simpl; done. }
      rewrite Hnone. exists i. split; [apply list_elem_of_here|done].
Qed.

(** [parse] raises [KeyError] exactly when a past index, or a positive
    current index, has no entry in [scripts]; a queued index without an
    entry is given a fresh one instead.  When it returns, the queue part
    has one entry for each queued index and no other, the past part has
    the stored entry of each past index and no other, and the current
    entry is there exactly when the current index is positive. *)
Theorem parse_spec (q : t) :
  match parse q with
  | Some p =>
      (forall i, i ∈ _past_script_indices q -> is_Some (scripts q !! i)) /\
      ((0 < _current_script_index q)%Z ->
       is_Some (scripts q !! _current_script_index q)) /\
      p_state p = state q /\
      (forall i,
         queue_scripts p !! i =
         if decide (i ∈ _queue_script_indices q)
         then Some (default (new_script i) (scripts q !! i)) else None) /\
      (forall i,
         past_scripts p !! i =
         if decide (i ∈ _past_script_indices q) then scripts q !! i
         else None) /\
      current p =
        (if bool_decide (0 < _current_script_index q)%Z
         then scripts q !! _current_script_index q else None)
  | None =>
      (exists i, (i ∈ _past_script_indices q) /\ scripts q !! i = None) \/
      ((0 < _current_script_index q)%Z /\
       scripts q !! _current_script_index q = None)
  end.
Proof.
  unfold parse.
  pose proof (parse_past_loop (scripts q) (_past_script_indices q) ∅)
    as Hpast.
  destruct (foldl _ (Some ∅) (_past_script_indices q)) as [past|]; simpl;
    [|by left].
  destruct Hpast as [Hall Hlook].
  assert (forall i,
            past !! i =
            if decide (i ∈ _past_script_indices q) then scripts q !! i
            else None) as Hlook'.
  { intros i. rewrite Hlook. by case_decide. }
  assert (forall i,
            foldl (fun d index =>
                     <[index := default (new_script index)
                                  (scripts q !! index)]> d)
                  (∅ : gmap Z Script) (_queue_script_indices q) !! i =
            if decide (i ∈ _queue_script_indices q)
            then Some (default (new_script i) (scripts q !! i)) else None)
    as Hqueue.
  { intros i. rewrite parse_queue_loop. by case_decide. }
  case_bool_decide as Hcur; simpl.
  - destruct (scripts q !! _current_script_index q) as [s|] eqn:Hs; simpl.
    + split_and!; eauto.
    + right. by split.
  - split_and!; eauto. intros ?. lia.
Qed.

(** [update] raises [IndexError] exactly when the event gives a length
    beyond one of its arrays, and then no script entry has changed.
    Otherwise the state holds the flags and the current index of the
    event and the first [length] and [pastLength] indices of its arrays;
    no entry is added or altered, and the entry of every script that the
    event mentions is kept. *)
Theorem update_spec (queue : QueueEvent) (q : t) :
  match update queue q with
  | Ok q' =>
      length queue <= List.length (salIndices queue) /\
      pastLength queue <= List.length (pastSalIndices queue) /\
      enabled q' = ev_enabled queue /\
      running q' = ev_running queue /\
      _current_script_index q' = currentSalIndex queue /\
      _queue_script_indices q' = take (length queue) (salIndices queue) /\
      _past_script_indices q' =
        take (pastLength queue) (pastSalIndices queue) /\
      (forall i e, scripts q' !! i = Some e -> scripts q !! i = Some e) /\
      (forall i, i ∈ script_indices q' -> scripts q' !! i = scripts q !! i)
  | Raise q' =>
      (List.length (salIndices queue) < length queue \/
       List.length (pastSalIndices queue) < pastLength queue) /\
      enabled q' = ev_enabled queue /\
      running q' = ev_running queue /\
      _current_script_index q' = currentSalIndex queue /\
      _past_script_indices q' = _past_script_indices q /\
      scripts q' = scripts q
  end.
Proof.
  unfold update. case_bool_decide as Hq; simpl; [by split_and!; auto|].
  case_bool_decide as Hp; simpl; [by split_and!; auto|].
  split_and!; try done; try lia.
  - intros i e Hi. apply map_lookup_filter_Some in Hi. exact (proj1 Hi).
  - intros i Hin.
    match type of Hin with
    | _ ∈ script_indices (clear_scripts ?m) =>
        exact (clear_scripts_keeps_listed m i Hin)
    end.
Qed.

End Model.

End QueueState.
